(** * scripts/extract-country-mapping.py

    A shallow embedding of [extract_country_mapping] and the properties of
    the country table, the sorted sequence, the printed snippet and the JSON
    artifact it produces.

    Conventions.
    - A Python [str] is a list of Unicode code points ([N]).
    - A Python [dict] is an association list in insertion order: assigning
      to a key that is present replaces the value in place, a new key is
      appended.  The order is what [items()] and [json.dump] iterate over.
    - [csv.reader], [csv.DictReader], [str.isspace], [sorted] and
      [json.dump] belong to the Python library.  The lexer of [csv.reader]
      is a parameter of the script; the others are written out after the
      library's code.
    - Paths are in their POSIX rendering; the encoding of the files
      (UTF-8) is not modelled, a file is its text.
    - Reading the input, [print] and opening the output for writing are
      taken to succeed: the only exception of the model is the one the
      loop over the rows raises.  What is proved of a run is proved of the
      runs in which the operating system and the reader do not fail. *)

From Stdlib Require Import String Ascii.
From Stdlib Require Import List NArith Bool Arith Lia.
From Stdlib Require Import Sorting.Sorted Sorting.Permutation.
From Stdlib Require Import Numbers.DecimalString.
Import ListNotations.

(* ===================================================================== *)
(** ** Python strings *)
(* ===================================================================== *)

Module PyStr.

Definition char := N.
Definition str := list char.

(** A literal written with Rocq's 8-bit strings. *)
Definition lit (s : string) : str := map N_of_ascii (list_ascii_of_string s).

Definition str_eqb (a b : str) : bool :=
  if list_eq_dec N.eq_dec a b then true else false.

(** Truth value of a string in a condition: non-empty. *)
Definition truthy (s : str) : bool :=
  match s with [] => false | _ :: _ => true end.

(** [a < b] on [str]: lexicographic on code points, a proper prefix first. *)
Fixpoint str_lt (a b : str) : bool :=
  match a, b with
  | _, [] => false
  | [], _ :: _ => true
  | x :: a', y :: b' => (x <? y)%N || ((x =? y)%N && str_lt a' b')
  end.

(** [(c1, n1) < (c2, n2)] on tuples: the first components that differ
    decide. *)
Definition tuple_lt (p q : str * str) : bool :=
  if str_eqb (fst p) (fst q) then str_lt (snd p) (snd q)
  else str_lt (fst p) (fst q).

(** [str.isspace] on one code point (the table of CPython's
    [_PyUnicode_IsWhitespace]). *)
Definition isspace (c : char) : bool :=
  ((9 <=? c) && (c <=? 13) || (28 <=? c) && (c <=? 32)
   || (c =? 133) || (c =? 160) || (c =? 5760)
   || (8192 <=? c) && (c <=? 8202)
   || (c =? 8232) || (c =? 8233) || (c =? 8239) || (c =? 8287)
   || (c =? 12288))%N.

Fixpoint lstrip (s : str) : str :=
  match s with
  | [] => []
  | c :: s' => if isspace c then lstrip s' else s
  end.

Definition rstrip (s : str) : str := rev (lstrip (rev s)).

(** [s.strip()]: the left index first, then the right one. *)
Definition strip (s : str) : str := rstrip (lstrip s).

(** [s.replace(old, new)] for a pattern [old] of one character. *)
Definition replace (old : char) (new : str) (s : str) : str :=
  flat_map (fun c => if (c =? old)%N then new else [c]) s.

(** [str(n)] for a length. *)
Definition str_of_nat (n : nat) : str :=
  lit (NilZero.string_of_uint (Nat.to_uint n)).

(** [c * n] *)
Definition times (c : str) (n : nat) : str := concat (repeat c n).

(** [sep.join(l)] *)
Fixpoint join (sep : str) (l : list str) : str :=
  match l with
  | [] => []
  | [x] => x
  | x :: l' => x ++ sep ++ join sep l'
  end.

End PyStr.
Import PyStr.

(* ===================================================================== *)
(** ** Python dicts, in insertion order *)
(* ===================================================================== *)

Section Dict.
Variables K V : Type.
Variable eqb : K -> K -> bool.

Definition dict := list (K * V).

(** [d[k] = v] *)
Fixpoint dict_set (d : dict) (k : K) (v : V) : dict :=
  match d with
  | [] => [(k, v)]
  | (k', v') :: d' =>
      if eqb k' k then (k', v) :: d' else (k', v') :: dict_set d' k v
  end.

(** [d.get(k)] as an option *)
Fixpoint dict_lookup (d : dict) (k : K) : option V :=
  match d with
  | [] => None
  | (k', v') :: d' => if eqb k' k then Some v' else dict_lookup d' k
  end.

(** [d.get(k, default)] *)
Definition dict_get (d : dict) (k : K) (default : V) : V :=
  match dict_lookup d k with Some v => v | None => default end.

(** [dict(pairs)] and the dict comprehension over a sequence of pairs *)
Definition dict_of (pairs : list (K * V)) : dict :=
  fold_left (fun d kv => dict_set d (fst kv) (snd kv)) pairs [].

Definition items (d : dict) : list (K * V) := d.
Definition keys (d : dict) : list K := map fst d.
End Dict.

Arguments dict_set {K V} eqb d k v.
Arguments dict_lookup {K V} eqb d k.
Arguments dict_get {K V} eqb d k default.
Arguments dict_of {K V} eqb pairs.
Arguments items {K V} d.
Arguments keys {K V} d.

(* ===================================================================== *)
(** ** [sorted] *)
(* ===================================================================== *)

(** [sorted] is a stable sort that only asks [<].  For a strict total
    order its result is determined by that; it is written here as the
    stable insertion sort. *)
Fixpoint insert_sorted (x : str * str) (l : list (str * str)) :=
  match l with
  | [] => [x]
  | y :: l' => if tuple_lt y x then y :: insert_sorted x l' else x :: l
  end.

Fixpoint sorted (l : list (str * str)) : list (str * str) :=
  match l with
  | [] => []
  | x :: l' => insert_sorted x (sorted l')
  end.

(* ===================================================================== *)
(** ** Exceptions and the two monads *)
(* ===================================================================== *)

Inductive exn := AttributeError | FileNotFoundError.

Inductive result (A : Type) : Type :=
| Ok (a : A)
| Raise (e : exn).
Arguments Ok {A} a.
Arguments Raise {A} e.

Definition bind_result {A B} (r : result A) (k : A -> result B) : result B :=
  match r with Ok a => k a | Raise e => Raise e end.

Declare Scope result_scope.
Delimit Scope result_scope with result.
Notation "x <- c1 ;; c2" := (bind_result c1 (fun x => c2))
  (at level 61, c1 at next level, right associativity) : result_scope.

(** The world a run acts on: the files by path (text) and what was printed,
    one entry per call of [print] (which ends it with a newline). *)
Record world := World { fs : dict str str; stdout : list str }.

(** A statement: it changes the world and returns or raises.  What was
    printed and written before an exception stays. *)
Definition prog (A : Type) := world -> world * result A.

Definition ret {A} (a : A) : prog A := fun w => (w, Ok a).
Definition lift {A} (r : result A) : prog A := fun w => (w, r).
Definition bind {A B} (c : prog A) (k : A -> prog B) : prog B :=
  fun w => match c w with
           | (w', Ok a) => k a w'
           | (w', Raise e) => (w', Raise e)
           end.

Declare Scope prog_scope.
Delimit Scope prog_scope with prog.
Notation "x <- c1 ;; c2" := (bind c1 (fun x => c2))
  (at level 61, c1 at next level, right associativity) : prog_scope.
Notation "c1 ;; c2" := (bind c1 (fun _ => c2))
  (at level 61, right associativity) : prog_scope.

(** [path.exists()] *)
Definition path_exists (p : str) : prog bool :=
  fun w => (w, Ok (match dict_lookup str_eqb (fs w) p with
                   | Some _ => true | None => false end)).

(** [open(p, 'r')], read to the end *)
Definition open_read (p : str) : prog str :=
  fun w => (w, match dict_lookup str_eqb (fs w) p with
               | Some text => Ok text
               | None => Raise FileNotFoundError
               end).

(** [open(p, 'w')] and the text written before the handle is closed: the
    file is created or truncated. *)
Definition open_write (p : str) (text : str) : prog unit :=
  fun w => (World (dict_set str_eqb (fs w) p text) (stdout w), Ok tt).

Definition print (s : str) : prog unit :=
  fun w => (World (fs w) (stdout w ++ [s]), Ok tt).

(** [for x in l: body] *)
Fixpoint for_each {A} (l : list A) (body : A -> prog unit) : prog unit :=
  match l with
  | [] => ret tt
  | x :: l' => (body x ;; for_each l' body)%prog
  end.

(** Exit status of the interpreter for a script that ends by returning from
    its main function, or by an exception nobody caught. *)
Definition exit_status {A} (r : result A) : N :=
  match r with Ok _ => 0%N | Raise _ => 1%N end.

(* ===================================================================== *)
(** ** [csv.DictReader] *)
(* ===================================================================== *)

(** What a row of a [DictReader] holds: the fields are strings, [restval]
    is [None], and the fields beyond the header are a list under the key
    [restkey], which is [None] too. *)
Inductive value := VStr (s : str) | VNone | VList (l : list str).

Definition key := option str.

Definition key_eqb (a b : key) : bool :=
  match a, b with
  | Some x, Some y => str_eqb x y
  | None, None => true
  | _, _ => false
  end.

Definition row := dict key value.

(** [DictReader.__next__] on one row of the underlying reader. *)
Definition DictReader_row (fieldnames r : list str) : row :=
  let d := dict_of key_eqb (combine (map Some fieldnames) (map VStr r)) in
  let lf := length fieldnames in
  let lr := length r in
  if lf <? lr then dict_set key_eqb d None (VList (skipn lf r))
  else if lr <? lf then
    fold_left (fun d k => dict_set key_eqb d (Some k) VNone)
              (skipn lr fieldnames) d
  else d.

Definition is_blank (r : list str) : bool :=
  match r with [] => true | _ :: _ => false end.

(** The rows a [DictReader] yields over the rows of the underlying reader:
    the first one is the header, blank ones after it are passed over. *)
Definition DictReader_rows (lines : list (list str)) : list row :=
  match lines with
  | [] => []
  | fieldnames :: rest =>
      map (DictReader_row fieldnames)
          (filter (fun r => negb (is_blank r)) rest)
  end.

(* ===================================================================== *)
(** ** [json.dump(obj, f, indent=2, ensure_ascii=False)] *)
(* ===================================================================== *)

#[local] Unset Elimination Schemes.
Inductive json := JStr (s : str) | JObj (members : list (str * json)).
#[local] Set Elimination Schemes.

Definition dquote : str := [34%N].
Definition newline : str := [10%N].

Definition hex_digit (n : N) : char :=
  if (n <? 10)%N then (48 + n)%N else (87 + n)%N.

(** [ESCAPE_DCT], for the characters [ESCAPE] matches; every other
    character stands for itself. *)
Definition escape_char (c : char) : str :=
  if (c =? 92)%N then lit "\\"
  else if (c =? 34)%N then lit "\" ++ dquote
  else if (c =? 8)%N then lit "\b"
  else if (c =? 12)%N then lit "\f"
  else if (c =? 10)%N then lit "\n"
  else if (c =? 13)%N then lit "\r"
  else if (c =? 9)%N then lit "\t"
  else if (c <? 32)%N then
    lit "\u00" ++ [hex_digit (c / 16); hex_digit (c mod 16)]
  else [c].

Definition encode_basestring (s : str) : str :=
  dquote ++ flat_map escape_char s ++ dquote.

(** [_iterencode] with [_indent] two spaces, at a level of nesting. *)
Fixpoint iterencode (o : json) (level : nat) : str :=
  match o with
  | JStr s => encode_basestring s
  | JObj [] => lit "{}"
  | JObj dct =>
      let newline_indent := newline ++ times (lit " ") (2 * S level) in
      let item_separator := lit "," ++ newline_indent in
      lit "{" ++ newline_indent
      ++ join item_separator
           (map (fun kv => encode_basestring (fst kv) ++ lit ": "
                           ++ iterencode (snd kv) (S level)) dct)
      ++ newline ++ times (lit " ") (2 * level) ++ lit "}"
  end.

Definition json_dumps (o : json) : str := iterencode o 0.

(** A dict of strings as a JSON object. *)
Definition json_of_dict (d : dict str str) : json :=
  JObj (map (fun kv => (fst kv, JStr (snd kv))) d).

(* ===================================================================== *)
(** ** The script *)
(* ===================================================================== *)

Definition csv_file : str := lit "../data/48-indicators/IMF_GFSE_GE_G14.csv".
Definition output_file : str := lit "country-mapping.json".
Definition REF_AREA : str := lit "REF_AREA".
Definition REF_AREA_LABEL : str := lit "REF_AREA_LABEL".
Definition quote : char := N_of_ascii "'".
Definition check_mark : char := 9989%N.

(** [v.strip()]: only a string has the method. *)
Definition strip_of (v : value) : result str :=
  match v with
  | VStr s => Ok (strip s)
  | VNone | VList _ => Raise AttributeError
  end.

(** [row.get('REF_AREA', '').strip()] and
    [row.get('REF_AREA_LABEL', '').strip()] *)
Definition code_of (r : row) : result str :=
  strip_of (dict_get key_eqb r (Some REF_AREA) (VStr [])).
Definition name_of (r : row) : result str :=
  strip_of (dict_get key_eqb r (Some REF_AREA_LABEL) (VStr [])).

(** The body of the loop over the rows, on the local [country_map]. *)
Definition loop_body (country_map : dict str str) (r : row)
  : result (dict str str) :=
  (code <- code_of r ;;
   name <- name_of r ;;
   if truthy code && truthy name
   then Ok (dict_set str_eqb country_map code name)
   else Ok country_map)%result.

Fixpoint for_rows (reader : list row) (country_map : dict str str)
  : result (dict str str) :=
  match reader with
  | [] => Ok country_map
  | r :: rest => (m <- loop_body country_map r ;; for_rows rest m)%result
  end.

(** [name.replace("'", "\\'")] *)
Definition escaped (name : str) : str := replace quote (lit "\'") name.

(** The two lines printed for an entry, one in each block. *)
Definition name_to_code_line (kv : str * str) : str :=
  let (code, name) := kv in
  lit "  '" ++ escaped name ++ lit "': '" ++ code ++ lit "',".
Definition code_to_name_line (kv : str * str) : str :=
  let (code, name) := kv in
  lit "  '" ++ code ++ lit "': '" ++ escaped name ++ lit "',".

(** [{name: code for code, name in sorted_countries}] *)
Definition nameToCode (sorted_countries : list (str * str)) : dict str str :=
  dict_of str_eqb (map (fun kv => (snd kv, fst kv)) sorted_countries).

(** [dict(sorted_countries)] *)
Definition codeToName (sorted_countries : list (str * str)) : dict str str :=
  dict_of str_eqb sorted_countries.

(** The object given to [json.dump]. *)
Definition mapping_json (sorted_countries : list (str * str)) : json :=
  JObj [ (lit "nameToCode", json_of_dict (nameToCode sorted_countries));
         (lit "codeToName", json_of_dict (codeToName sorted_countries)) ].

Section Script.
(** [csv.reader] on the text of a file: the rows of fields it yields. *)
Variable csv_reader : str -> list (list str).

Definition DictReader (f : str) : list row := DictReader_rows (csv_reader f).

Definition extract_country_mapping : prog unit :=
  (found <- path_exists csv_file ;;
   if negb found then
     print (lit "Error: " ++ csv_file ++ lit " not found")
   else
     f <- open_read csv_file ;;
     country_map <- lift (for_rows (DictReader f) []) ;;
     let sorted_countries := sorted (items country_map) in
     print (lit "Found " ++ str_of_nat (length sorted_countries)
            ++ lit " unique countries" ++ newline) ;;
     print (times (lit "=") 80) ;;
     print (lit "COUNTRY CODE MAPPING (for countryMapping.js)") ;;
     print (times (lit "=") 80) ;;
     print (newline
            ++ lit "// Extracted from IMF data - REF_AREA_LABEL to REF_AREA") ;;
     print (lit "const IMF_COUNTRY_MAP = {") ;;
     for_each sorted_countries (fun kv => print (name_to_code_line kv)) ;;
     print (lit "}" ++ newline) ;;
     print (newline ++ lit "// Reverse mapping (code to name) for display") ;;
     print (lit "const CODE_TO_NAME = {") ;;
     for_each sorted_countries (fun kv => print (code_to_name_line kv)) ;;
     print (lit "}" ++ newline) ;;
     open_write output_file (json_dumps (mapping_json sorted_countries)) ;;
     print (newline ++ [check_mark] ++ lit " Mapping saved to " ++ output_file) ;;
     print ([check_mark] ++ lit " Total countries: "
            ++ str_of_nat (length sorted_countries)))%prog.

(** The process: the script calls the function and ends. *)
Definition main (w : world) : world * N :=
  let (w', r) := extract_country_mapping w in (w', exit_status r).
End Script.

(* ===================================================================== *)
(** ** Vocabulary of the properties *)
(* ===================================================================== *)

(** A string with no white space at either end. *)
Definition no_outer_space (s : str) : Prop :=
  (forall c s', s = c :: s' -> isspace c = false)
  /\ (forall c s', s = s' ++ [c] -> isspace c = false).

(** Non-empty and trimmed. *)
Definition clean (s : str) : Prop := s <> [] /\ no_outer_space s.

(** Both fields of the row can be trimmed. *)
Definition readable (r : row) : Prop :=
  exists code name, code_of r = Ok code /\ name_of r = Ok name.

(** The row has the trimmed code and label given, both non-empty. *)
Definition retained (r : row) (code name : str) : Prop :=
  code_of r = Ok code /\ name_of r = Ok name /\ code <> [] /\ name <> [].

(** A row of the file bears the code. *)
Definition bears (rows : list row) (code : str) : Prop :=
  exists r name, In r rows /\ retained r code name.

(** The label of the last row of the file, in file order, that bears the
    code. *)
Definition last_bearing (rows : list row) (code name : str) : Prop :=
  exists pre r post,
    rows = pre ++ r :: post /\ retained r code name /\ ~ bears post code.

(** The pair is the last one of the sequence with this key. *)
Definition last_binding {K V} (l : list (K * V)) (k : K) (v : V) : Prop :=
  exists pre post, l = pre ++ (k, v) :: post /\ ~ In k (map fst post).

(** Strictly ascending codes. *)
Definition code_lt (p q : str * str) : Prop := str_lt (fst p) (fst q) = true.

(** Everything [extract_country_mapping] prints once the table is built. *)
Definition report (sorted_countries : list (str * str)) : list str :=
  [ lit "Found " ++ str_of_nat (length sorted_countries)
      ++ lit " unique countries" ++ newline;
    times (lit "=") 80;
    lit "COUNTRY CODE MAPPING (for countryMapping.js)";
    times (lit "=") 80;
    newline ++ lit "// Extracted from IMF data - REF_AREA_LABEL to REF_AREA";
    lit "const IMF_COUNTRY_MAP = {" ]
  ++ map name_to_code_line sorted_countries
  ++ [ lit "}" ++ newline;
       newline ++ lit "// Reverse mapping (code to name) for display";
       lit "const CODE_TO_NAME = {" ]
  ++ map code_to_name_line sorted_countries
  ++ [ lit "}" ++ newline;
       newline ++ [check_mark] ++ lit " Mapping saved to " ++ output_file;
       [check_mark] ++ lit " Total countries: "
         ++ str_of_nat (length sorted_countries) ].

(** [t] occurs in [s] as a substring. *)
Definition contains (s t : str) : Prop := exists a b, s = a ++ t ++ b.

(* ===================================================================== *)
(** ** Sample inputs *)
(* ===================================================================== *)

(** A reader that yields the given rows whatever the text. *)
Definition reader_of (lines : list (list str)) : str -> list (list str) :=
  fun _ => lines.

(** A world where the input file exists and nothing was printed. *)
Definition start_world : world := World [(csv_file, [])] [].

(** A world without the input file, and an older output file. *)
Definition bare_world : world := World [(output_file, lit "{}")] [].

(** The scenario of the specification: the code US twice, then FR. *)
Definition scenario_input : list (list str) :=
  [ [REF_AREA; REF_AREA_LABEL];
    [lit "US"; lit "United States"];
    [lit "US"; lit "United States of America"];
    [lit "FR"; lit "France"] ].

Definition scenario_table : dict str str :=
  [ (lit "US", lit "United States of America"); (lit "FR", lit "France") ].

Definition scenario_sorted : list (str * str) :=
  [ (lit "FR", lit "France"); (lit "US", lit "United States of America") ].

Definition scenario_json : json :=
  JObj [ (lit "nameToCode",
          JObj [ (lit "France", JStr (lit "FR"));
                 (lit "United States of America", JStr (lit "US")) ]);
         (lit "codeToName",
          JObj [ (lit "FR", JStr (lit "France"));
                 (lit "US", JStr (lit "United States of America")) ]) ].

Definition quoted (s : string) : str := dquote ++ lit s ++ dquote.

(** The text of the file, line by line. *)
Definition scenario_text : str :=
  join newline
    [ lit "{";
      lit "  " ++ quoted "nameToCode" ++ lit ": {";
      lit "    " ++ quoted "France" ++ lit ": " ++ quoted "FR" ++ lit ",";
      lit "    " ++ quoted "United States of America" ++ lit ": "
        ++ quoted "US";
      lit "  },";
      lit "  " ++ quoted "codeToName" ++ lit ": {";
      lit "    " ++ quoted "FR" ++ lit ": " ++ quoted "France" ++ lit ",";
      lit "    " ++ quoted "US" ++ lit ": "
        ++ quoted "United States of America";
      lit "  }";
      lit "}" ].

(** Two codes with one label. *)
Definition shared_label_input : list (list str) :=
  [ [REF_AREA; REF_AREA_LABEL];
    [lit "CD"; lit "Congo"];
    [lit "CG"; lit "Congo"] ].

Definition shared_label_table : dict str str :=
  [ (lit "CD", lit "Congo"); (lit "CG", lit "Congo") ].

(** A row with fewer fields than the header. *)
Definition short_row_input : list (list str) :=
  [ [REF_AREA; REF_AREA_LABEL]; [lit "US"] ].

(** Fields with white space around them, a quote, an empty label, a blank
    line, a row longer than the header. *)
Definition ragged_input : list (list str) :=
  [ [REF_AREA_LABEL; REF_AREA];
    [lit "Ivory Coast"; lit " CI"];
    [lit "   "; lit "XX"];
    [lit " Cote d'Ivoire "; lit "CI "];
    [];
    [lit "Aruba"; lit "AW"; lit "extra"] ].

Definition ragged_table : dict str str :=
  [ (lit "CI", lit "Cote d'Ivoire"); (lit "AW", lit "Aruba") ].

(* ===================================================================== *)
(** ** Further vocabulary and inputs *)
(* ===================================================================== *)

(** The row of the underlying reader has a field for every column. *)
Definition full_row (fieldnames r : list str) : Prop :=
  length fieldnames <= length r.

(** The column lies beyond the last field of the row. *)
Definition lacks_field (fieldnames r : list str) (k : str) : Prop :=
  In k (skipn (length r) fieldnames).

Definition all_space (s : str) : Prop := Forall (fun c => isspace c = true) s.

(** Every value under a column name is a string. *)
Definition strings_only (r : row) : Prop :=
  forall k v, dict_lookup key_eqb r (Some k) = Some v -> exists s, v = VStr s.

(** The text written when the table is empty. *)
Definition empty_maps_text : str :=
  join newline
    [ lit "{";
      lit "  " ++ quoted "nameToCode" ++ lit ": {},";
      lit "  " ++ quoted "codeToName" ++ lit ": {}";
      lit "}" ].

(** A file with a header and nothing else. *)
Definition header_only_input : list (list str) :=
  [ [REF_AREA; REF_AREA_LABEL] ].

(** A file whose columns have other names. *)
Definition other_columns_input : list (list str) :=
  [ [lit "ref_area"; lit "REF_AREA_LABEL"];
    [lit "US"; lit "United States"];
    [lit "FR"; lit "France"; lit "extra"] ].

(** The scenario with its rows in another order and two rows more that
    leave no entry or are overwritten. *)
Definition reordered_input : list (list str) :=
  [ [REF_AREA_LABEL; REF_AREA];
    [lit "France"; lit "FR"];
    [[]; lit "DE"];
    [lit "USA"; lit "US"];
    [lit "United States of America"; lit "US"] ].

Definition reordered_table : dict str str :=
  [ (lit "FR", lit "France"); (lit "US", lit "United States of America") ].

(* ===================================================================== *)
(** ** Strings: equality, order, trimming *)
(* ===================================================================== *)

Lemma str_eqb_eq (a b : str) : str_eqb a b = true <-> a = b.
Proof.
  unfold str_eqb. destruct (list_eq_dec N.eq_dec a b); split; congruence.
Qed.

Lemma str_eqb_refl (a : str) : str_eqb a a = true.
Proof. now apply str_eqb_eq. Qed.

Lemma str_eqb_neq (a b : str) : str_eqb a b = false <-> a <> b.
Proof.
  unfold str_eqb. destruct (list_eq_dec N.eq_dec a b); split; congruence.
Qed.

Lemma truthy_true (s : str) : truthy s = true <-> s <> [].
Proof. destruct s; simpl; split; congruence. Qed.

Lemma str_lt_irrefl (a : str) : str_lt a a = false.
Proof.
  induction a as [|x a IH]; simpl; [reflexivity|].
  rewrite N.ltb_irrefl, N.eqb_refl, IH. reflexivity.
Qed.

Lemma str_lt_trans (a b c : str) :
  str_lt a b = true -> str_lt b c = true -> str_lt a c = true.
Proof.
  revert b c. induction a as [|x a IH]; intros [|y b] [|z c]; simpl;
    try congruence.
  rewrite !orb_true_iff, !andb_true_iff, !N.ltb_lt, !N.eqb_eq.
  intros [Hxy | [Hxy Hab]] [Hyz | [Hyz Hbc]].
  - left; lia.
  - left; lia.
  - left; lia.
  - right; split; [lia | eauto].
Qed.

Lemma str_lt_total (a b : str) :
  str_lt a b = true \/ a = b \/ str_lt b a = true.
Proof.
  revert b. induction a as [|x a IH]; intros [|y b]; simpl; auto.
  rewrite !orb_true_iff, !andb_true_iff, !N.ltb_lt, !N.eqb_eq.
  destruct (N.lt_trichotomy x y) as [H | [H | H]].
  - left; left; exact H.
  - subst y. destruct (IH b) as [H | [H | H]].
    + left; right; split; [reflexivity | exact H].
    + right; left; congruence.
    + right; right; right; split; [reflexivity | exact H].
  - right; right; left; exact H.
Qed.

Lemma tuple_lt_codes (p q : str * str) :
  fst p <> fst q -> tuple_lt p q = str_lt (fst p) (fst q).
Proof.
  intros H. unfold tuple_lt. apply str_eqb_neq in H. now rewrite H.
Qed.

Lemma lstrip_split (s : str) :
  exists ws, s = ws ++ lstrip s /\ Forall (fun c => isspace c = true) ws.
Proof.
  induction s as [|c s [ws [E F]]]; simpl.
  - exists []; split; [reflexivity | constructor].
  - destruct (isspace c) eqn:Hc.
    + exists (c :: ws); split; [simpl; congruence | now constructor].
    + exists []; split; [reflexivity | constructor].
Qed.

Lemma lstrip_head (s : str) c s' : lstrip s = c :: s' -> isspace c = false.
Proof.
  induction s as [|x s IH]; simpl; [discriminate|].
  destruct (isspace x) eqn:Hx; [exact IH|].
  intros E; injection E as -> _; exact Hx.
Qed.

Lemma rstrip_split (s : str) :
  exists ws, s = rstrip s ++ ws /\ Forall (fun c => isspace c = true) ws.
Proof.
  unfold rstrip. destruct (lstrip_split (rev s)) as [ws [E F]].
  exists (rev ws); split.
  - rewrite <- rev_app_distr, <- E, rev_involutive. reflexivity.
  - now apply Forall_rev.
Qed.

Lemma rstrip_last (s : str) c s' : rstrip s = s' ++ [c] -> isspace c = false.
Proof.
  unfold rstrip. intros E.
  apply (f_equal (@rev _)) in E.
  rewrite rev_involutive, rev_app_distr in E. simpl in E.
  exact (lstrip_head _ _ _ E).
Qed.

Lemma strip_no_outer_space (s : str) : no_outer_space (strip s).
Proof.
  unfold strip. split.
  - intros c s' E.
    destruct (rstrip_split (lstrip s)) as [ws [Hs _]].
    rewrite E in Hs. simpl in Hs. exact (lstrip_head _ _ _ Hs).
  - intros c s' E. exact (rstrip_last _ _ _ E).
Qed.

Lemma strip_nil : strip [] = [].
Proof. reflexivity. Qed.

(* ===================================================================== *)
(** ** Dicts *)
(* ===================================================================== *)

Lemma last_binding_snoc {K V} (l : list (K * V)) k v k' v' :
  last_binding (l ++ [(k', v')]) k v
  <-> (k = k' /\ v = v') \/ (k <> k' /\ last_binding l k v).
Proof.
  unfold last_binding. split.
  - intros (pre & post & E & Hn).
    destruct post as [|y post0] using rev_ind.
    + apply app_inj_tail in E. destruct E as [_ E]. left.
      now injection E as -> ->.
    + clear IHpost0. rewrite app_comm_cons, app_assoc in E.
      apply app_inj_tail in E. destruct E as [El Ey]. subst y.
      rewrite map_app, in_app_iff in Hn. simpl in Hn.
      right. split; [intros ->; tauto|].
      exists pre, post0. split; [exact El | tauto].
  - intros [[-> ->] | [Hne (pre & post & E & Hn)]].
    + exists l, []. split; [reflexivity | simpl; tauto].
    + exists pre, (post ++ [(k', v')]). split.
      * rewrite E, <- app_assoc. reflexivity.
      * rewrite map_app, in_app_iff. simpl. intros [H | [H | []]]; auto.
Qed.

Section DictFacts.
Variables K V : Type.
Variable eqb : K -> K -> bool.
Hypothesis eqb_eq : forall a b, eqb a b = true <-> a = b.

Lemma eqb_neq a b : eqb a b = false <-> a <> b.
Proof.
  destruct (eqb a b) eqn:E; split; try congruence.
  - apply eqb_eq in E. congruence.
  - intros _ H. apply eqb_eq in H. congruence.
Qed.

Lemma lookup_set_eq (d : dict K V) k v :
  dict_lookup eqb (dict_set eqb d k v) k = Some v.
Proof.
  induction d as [|[k0 v0] d IH]; simpl.
  - now rewrite (proj2 (eqb_eq k k) eq_refl).
  - destruct (eqb k0 k) eqn:E; simpl; rewrite E; auto.
Qed.

Lemma lookup_set_ne (d : dict K V) k v k' :
  k <> k' ->
  dict_lookup eqb (dict_set eqb d k v) k' = dict_lookup eqb d k'.
Proof.
  intros Hne. induction d as [|[k0 v0] d IH]; simpl.
  - now rewrite (proj2 (eqb_neq k k') Hne).
  - destruct (eqb k0 k) eqn:E; simpl.
    + apply eqb_eq in E. subst k0.
      now rewrite (proj2 (eqb_neq k k') Hne).
    + now rewrite IH.
Qed.

Lemma keys_set (d : dict K V) k v x :
  In x (keys (dict_set eqb d k v)) <-> x = k \/ In x (keys d).
Proof.
  unfold keys. induction d as [|[k0 v0] d IH]; simpl.
  - intuition.
  - destruct (eqb k0 k) eqn:E; simpl.
    + apply eqb_eq in E. subst k0. intuition.
    + rewrite IH. intuition.
Qed.

Lemma NoDup_keys_set (d : dict K V) k v :
  NoDup (keys d) -> NoDup (keys (dict_set eqb d k v)).
Proof.
  induction d as [|[k0 v0] d IH]; simpl; intros H.
  - constructor; [simpl; tauto | constructor].
  - destruct (eqb k0 k) eqn:E; simpl; [exact H|].
    inversion H as [|? ? Hn Hd]; subst. constructor.
    + intros Hin. apply keys_set in Hin. destruct Hin as [-> | Hin].
      * apply eqb_neq in E. congruence.
      * exact (Hn Hin).
    + exact (IH Hd).
Qed.

Lemma in_set (d : dict K V) k v k' v' :
  In (k', v') (dict_set eqb d k v) -> (k' = k /\ v' = v) \/ In (k', v') d.
Proof.
  induction d as [|[k0 v0] d IH]; simpl.
  - intros [E | []]. injection E as <- <-. auto.
  - destruct (eqb k0 k) eqn:E; simpl.
    + apply eqb_eq in E. subst k0.
      intros [H | H]; [injection H as <- <-|]; auto.
    + intros [H | H]; auto. destruct (IH H); auto.
Qed.

Lemma lookup_In (d : dict K V) k v :
  NoDup (keys d) -> (dict_lookup eqb d k = Some v <-> In (k, v) d).
Proof.
  induction d as [|[k0 v0] d IH]; simpl; intros H.
  - split; [discriminate | tauto].
  - inversion H as [|? ? Hn Hd]; subst.
    destruct (eqb k0 k) eqn:E.
    + apply eqb_eq in E. subst k0. split.
      * intros [= ->]. now left.
      * intros [[= ->] | Hin]; [reflexivity|].
        exfalso. apply Hn. apply (in_map fst) in Hin. exact Hin.
    + rewrite (IH Hd). split; [tauto|].
      intros [[= -> ->] | Hin]; [|exact Hin].
      apply eqb_neq in E. congruence.
Qed.

Lemma dict_of_snoc (l : list (K * V)) k v :
  dict_of eqb (l ++ [(k, v)]) = dict_set eqb (dict_of eqb l) k v.
Proof. unfold dict_of. now rewrite fold_left_app. Qed.

Lemma NoDup_keys_dict_of (l : list (K * V)) : NoDup (keys (dict_of eqb l)).
Proof.
  induction l as [|[k v] l IH] using rev_ind.
  - constructor.
  - rewrite dict_of_snoc. now apply NoDup_keys_set.
Qed.

Lemma lookup_dict_of (l : list (K * V)) k v :
  dict_lookup eqb (dict_of eqb l) k = Some v <-> last_binding l k v.
Proof.
  induction l as [|[k' v'] l IH] using rev_ind.
  - split; [discriminate|].
    intros (pre & post & E & _). now destruct pre.
  - rewrite dict_of_snoc, last_binding_snoc.
    destruct (eqb k' k) eqn:E.
    + apply eqb_eq in E. subst k'. rewrite lookup_set_eq. split.
      * intros [= ->]. now left.
      * intros [[_ ->] | [Hne _]]; congruence.
    + apply eqb_neq in E. rewrite lookup_set_ne by exact E. rewrite IH. split.
      * intros H. right. split; [congruence | exact H].
      * intros [[-> _] | [_ H]]; [congruence | exact H].
Qed.

Lemma in_dict_of (l : list (K * V)) k v :
  In (k, v) (dict_of eqb l) -> In (k, v) l.
Proof.
  intros H. apply lookup_In in H; [|apply NoDup_keys_dict_of].
  apply lookup_dict_of in H. destruct H as (pre & post & -> & _).
  apply in_or_app. right. now left.
Qed.

Lemma dict_set_fresh (d : dict K V) k v :
  ~ In k (keys d) -> dict_set eqb d k v = d ++ [(k, v)].
Proof.
  induction d as [|[k0 v0] d IH]; simpl; intros H; [reflexivity|].
  destruct (eqb k0 k) eqn:E.
  - apply eqb_eq in E. tauto.
  - rewrite IH; tauto.
Qed.

Lemma fold_set_NoDup (l acc : list (K * V)) :
  NoDup (map fst (acc ++ l)) ->
  fold_left (fun d kv => dict_set eqb d (fst kv) (snd kv)) l acc = acc ++ l.
Proof.
  revert acc. induction l as [|[k v] l IH]; intros acc H; simpl.
  - now rewrite app_nil_r.
  - rewrite dict_set_fresh.
    + rewrite IH; rewrite <- app_assoc; [reflexivity | exact H].
    + rewrite map_app in H. apply NoDup_remove_2 in H.
      unfold keys. intros Hin. apply H. apply in_or_app. now left.
Qed.

Lemma dict_of_NoDup (l : list (K * V)) :
  NoDup (map fst l) -> dict_of eqb l = l.
Proof. intros H. unfold dict_of. now rewrite fold_set_NoDup. Qed.
End DictFacts.

Arguments eqb_neq {K eqb} eqb_eq a b.
Arguments lookup_set_eq {K V eqb} eqb_eq d k v.
Arguments lookup_set_ne {K V eqb} eqb_eq d k v k' _.
Arguments keys_set {K V eqb} eqb_eq d k v x.
Arguments NoDup_keys_set {K V eqb} eqb_eq d k v _.
Arguments in_set {K V eqb} eqb_eq d k v k' v' _.
Arguments lookup_In {K V eqb} eqb_eq d k v _.
Arguments dict_of_snoc {K V} eqb l k v.
Arguments NoDup_keys_dict_of {K V eqb} eqb_eq l.
Arguments lookup_dict_of {K V eqb} eqb_eq l k v.
Arguments in_dict_of {K V eqb} eqb_eq l k v _.
Arguments dict_of_NoDup {K V eqb} eqb_eq l _.

(* ===================================================================== *)
(** ** [sorted] on pairs with distinct codes *)
(* ===================================================================== *)

Lemma insert_sorted_perm x l : Permutation (insert_sorted x l) (x :: l).
Proof.
  induction l as [|y l IH]; simpl; [reflexivity|].
  destruct (tuple_lt y x); [|reflexivity].
  rewrite IH. apply perm_swap.
Qed.

Lemma sorted_perm l : Permutation (sorted l) l.
Proof.
  induction l as [|x l IH]; simpl; [reflexivity|].
  rewrite insert_sorted_perm. now constructor.
Qed.

Lemma sorted_In p l : In p (sorted l) <-> In p l.
Proof.
  split; apply Permutation_in; [|symmetry]; apply sorted_perm.
Qed.

Lemma sorted_length l : length (sorted l) = length l.
Proof. apply Permutation_length, sorted_perm. Qed.

Lemma sorted_NoDup_keys l : NoDup (map fst l) -> NoDup (map fst (sorted l)).
Proof.
  apply Permutation_NoDup, Permutation_map. symmetry. apply sorted_perm.
Qed.

Lemma insert_sorted_ascending x l :
  ~ In (fst x) (map fst l) ->
  StronglySorted code_lt l -> StronglySorted code_lt (insert_sorted x l).
Proof.
  induction l as [|y l IH]; simpl; intros Hx Hs.
  - repeat constructor.
  - inversion Hs as [|? ? Hl Hy]; subst.
    assert (Hne : fst y <> fst x) by tauto.
    rewrite (tuple_lt_codes _ _ Hne).
    destruct (str_lt (fst y) (fst x)) eqn:Hlt.
    + constructor; [apply IH; tauto|].
      apply Forall_forall. intros z Hz.
      apply (Permutation_in _ (insert_sorted_perm x l)) in Hz.
      destruct Hz as [<- | Hz]; [exact Hlt|].
      rewrite Forall_forall in Hy. now apply Hy.
    + assert (Hxy : code_lt x y).
      { unfold code_lt.
        destruct (str_lt_total (fst x) (fst y)) as [H | [H | H]];
          congruence. }
      constructor; [exact Hs|]. constructor; [exact Hxy|].
      eapply Forall_impl; [|exact Hy].
      intros z Hz. eapply str_lt_trans; eassumption.
Qed.

Lemma sorted_ascending l :
  NoDup (map fst l) -> StronglySorted code_lt (sorted l).
Proof.
  induction l as [|x l IH]; simpl; intros H; [constructor|].
  inversion H as [|? ? Hn Hd]; subst.
  apply insert_sorted_ascending; [|now apply IH].
  intros Hin. apply Hn.
  apply (Permutation_in _ (Permutation_map fst (sorted_perm l))). exact Hin.
Qed.

(** In an ascending sequence the position decides the order. *)
Lemma ascending_split pre p q post :
  StronglySorted code_lt (pre ++ p :: post) -> In q post -> code_lt p q.
Proof.
  induction pre as [|x pre IH]; simpl; intros H Hq.
  - inversion H as [|? ? _ Hall]; subst.
    rewrite Forall_forall in Hall. now apply Hall.
  - inversion H; subst. now apply IH.
Qed.

(* ===================================================================== *)
(** ** The loop over the rows *)
(* ===================================================================== *)

Lemma loop_body_retained m r code name :
  retained r code name -> loop_body m r = Ok (dict_set str_eqb m code name).
Proof.
  intros (Hc & Hn & Hc' & Hn'). unfold loop_body. rewrite Hc, Hn. simpl.
  apply truthy_true in Hc', Hn'. now rewrite Hc', Hn'.
Qed.

Lemma loop_body_skipped m r code name :
  code_of r = Ok code -> name_of r = Ok name -> code = [] \/ name = [] ->
  loop_body m r = Ok m.
Proof.
  intros Hc Hn H. unfold loop_body. rewrite Hc, Hn. simpl.
  destruct H as [-> | ->]; simpl; [reflexivity|].
  now rewrite andb_false_r.
Qed.

Lemma loop_body_readable m r :
  readable r ->
  (exists code name, retained r code name
                     /\ loop_body m r = Ok (dict_set str_eqb m code name))
  \/ ((forall code name, ~ retained r code name) /\ loop_body m r = Ok m).
Proof.
  intros (code & name & Hc & Hn).
  destruct code as [|c code'] eqn:Ec.
  - right. split.
    + intros c' n' (Hc' & _ & Hne & _). congruence.
    + eapply loop_body_skipped; eauto.
  - destruct name as [|n name'] eqn:En.
    + right. split.
      * intros c' n' (_ & Hn' & _ & Hne). congruence.
      * eapply loop_body_skipped; eauto.
    + left. exists code, name. subst code name.
      assert (R : retained r (c :: code') (n :: name')).
      { repeat split; auto; discriminate. }
      split; [exact R | now apply loop_body_retained].
Qed.

Lemma strip_of_raises v e : strip_of v = Raise e -> e = AttributeError.
Proof. destruct v; simpl; congruence. Qed.

Lemma loop_body_unreadable m r :
  ~ readable r -> loop_body m r = Raise AttributeError.
Proof.
  intros H. unfold loop_body.
  destruct (code_of r) as [code|e] eqn:Hc; simpl.
  - destruct (name_of r) as [name|e] eqn:Hn; simpl.
    + exfalso. apply H. now exists code, name.
    + now rewrite (strip_of_raises _ _ Hn).
  - now rewrite (strip_of_raises _ _ Hc).
Qed.

Lemma for_rows_app rows1 rows2 m :
  for_rows (rows1 ++ rows2) m
  = bind_result (for_rows rows1 m) (for_rows rows2).
Proof.
  revert m. induction rows1 as [|r rows1 IH]; intros m; simpl.
  - reflexivity.
  - destruct (loop_body m r); simpl; auto.
Qed.

Lemma for_rows_readable rows m :
  Forall readable rows -> exists t, for_rows rows m = Ok t.
Proof.
  intros H. revert m. induction H as [|r rows Hr _ IH]; intros m; simpl.
  - now exists m.
  - destruct (loop_body_readable m r Hr) as [(c & n & _ & E) | [_ E]];
      rewrite E; simpl; apply IH.
Qed.

Lemma for_rows_unreadable rows m :
  ~ Forall readable rows -> for_rows rows m = Raise AttributeError.
Proof.
  revert m. induction rows as [|r rows IH]; intros m H; simpl.
  - exfalso. apply H. constructor.
  - destruct (loop_body m r) as [m'|e] eqn:E; simpl.
    + apply IH. intros Hall. apply H. constructor; [|exact Hall].
      destruct (code_of r) as [code|] eqn:Hc;
        [destruct (name_of r) as [name|] eqn:Hn|].
      * now exists code, name.
      * unfold loop_body in E. rewrite Hc, Hn in E. discriminate.
      * unfold loop_body in E. rewrite Hc in E. discriminate.
    + unfold loop_body in E.
      destruct (code_of r) as [code|e1] eqn:Hc; simpl in E.
      * destruct (name_of r) as [name|e2] eqn:Hn; simpl in E.
        -- destruct (truthy code && truthy name); discriminate.
        -- injection E as <-. now rewrite (strip_of_raises _ _ Hn).
      * injection E as <-. now rewrite (strip_of_raises _ _ Hc).
Qed.

Lemma retained_fun r c n c' n' :
  retained r c n -> retained r c' n' -> c = c' /\ n = n'.
Proof. intros (H1 & H2 & _) (H3 & H4 & _). split; congruence. Qed.

Lemma last_bearing_cons r rows code name :
  last_bearing (r :: rows) code name
  <-> (retained r code name /\ ~ bears rows code)
      \/ last_bearing rows code name.
Proof.
  unfold last_bearing. split.
  - intros (pre & r0 & post & E & R & Hn). destruct pre as [|x pre].
    + simpl in E. injection E as <- <-. now left.
    + simpl in E. injection E as <- ->. right. now exists pre, r0, post.
  - intros [[R Hn] | (pre & r0 & post & -> & R & Hn)].
    + now exists [], r, rows.
    + now exists (r :: pre), r0, post.
Qed.

Lemma bears_cons r rows code :
  bears (r :: rows) code
  <-> (exists name, retained r code name) \/ bears rows code.
Proof.
  unfold bears. split.
  - intros (r0 & n & [<- | Hin] & R); [left; now exists n|].
    right. now exists r0, n.
  - intros [[n R] | (r0 & n & Hin & R)].
    + exists r, n. split; [now left | exact R].
    + exists r0, n. split; [now right | exact R].
Qed.

(** The table after the loop, from any table before it. *)
Lemma for_rows_lookup rows : forall m t,
  for_rows rows m = Ok t ->
  forall code name,
    dict_lookup str_eqb t code = Some name
    <-> last_bearing rows code name
        \/ (~ bears rows code /\ dict_lookup str_eqb m code = Some name).
Proof.
  induction rows as [|r rows IH]; intros m t H code name; simpl in H.
  - injection H as <-. split.
    + intros E. right. split; [|exact E].
      intros (r & n & [] & _).
    + intros [(pre & r & post & E & _) | [_ E]]; [now destruct pre | exact E].
  - destruct (loop_body m r) as [m1|e] eqn:Hb; simpl in H; [|discriminate].
    rewrite (IH _ _ H), last_bearing_cons, bears_cons.
    assert (Hr : readable r).
    { destruct (code_of r) as [c|] eqn:Hc;
        [destruct (name_of r) as [n|] eqn:Hn|].
      - now exists c, n.
      - unfold loop_body in Hb. rewrite Hc, Hn in Hb. discriminate.
      - unfold loop_body in Hb. rewrite Hc in Hb. discriminate. }
    destruct (loop_body_readable m r Hr) as [(c & n & R & E) | [Hno E]];
      rewrite E in Hb; injection Hb as <-.
    + destruct (list_eq_dec N.eq_dec c code) as [-> | Hne].
      * rewrite (lookup_set_eq str_eqb_eq). split.
        -- intros [L | [Hn [= ->]]]; [now left; right | now left; left].
        -- intros [[[R' Hn] | L] | [Hn _]].
           ++ right. split; [exact Hn|].
              destruct (retained_fun _ _ _ _ _ R R') as [_ ->]. reflexivity.
           ++ now left.
           ++ exfalso. apply Hn. left. now exists n.
      * rewrite (lookup_set_ne str_eqb_eq) by exact Hne. split.
        -- intros [L | [Hn Hm]]; [now left; right|].
           right. split; [|exact Hm].
           intros [[n' R'] | B]; [|exact (Hn B)].
           destruct (retained_fun _ _ _ _ _ R R') as [-> _]. congruence.
        -- intros [[[R' Hn] | L] | [Hn Hm]].
           ++ destruct (retained_fun _ _ _ _ _ R R') as [-> _]. congruence.
           ++ now left.
           ++ right. tauto.
    + split.
      * intros [L | [Hn Hm]]; [now left; right|].
        right. split; [|exact Hm].
        intros [[n' R'] | B]; [exact (Hno _ _ R') | exact (Hn B)].
      * intros [[[R' Hn] | L] | [Hn Hm]].
        -- exfalso. exact (Hno _ _ R').
        -- now left.
        -- right. tauto.
Qed.

Lemma for_rows_NoDup rows : forall m t,
  for_rows rows m = Ok t -> NoDup (keys m) -> NoDup (keys t).
Proof.
  induction rows as [|r rows IH]; intros m t H Hm; simpl in H.
  - now injection H as <-.
  - destruct (loop_body m r) as [m1|e] eqn:Hb; simpl in H; [|discriminate].
    apply (IH _ _ H). unfold loop_body in Hb.
    destruct (code_of r) as [c|]; simpl in Hb; [|discriminate].
    destruct (name_of r) as [n|]; simpl in Hb; [|discriminate].
    destruct (truthy c && truthy n); injection Hb as <-; [|exact Hm].
    now apply (NoDup_keys_set str_eqb_eq).
Qed.

(* ===================================================================== *)
(** ** Runs of the script *)
(* ===================================================================== *)

Lemma for_each_print {A} (f : A -> str) (l : list A) (w : world) :
  for_each l (fun x => print (f x)) w
  = (World (fs w) (stdout w ++ map f l), Ok tt).
Proof.
  revert w. induction l as [|x l IH]; intros w; simpl.
  - rewrite app_nil_r. now destruct w.
  - unfold bind, print at 1. rewrite IH. simpl.
    now rewrite <- app_assoc.
Qed.

Lemma bind_print {B} s (k : unit -> prog B) w :
  bind (print s) k w = k tt (World (fs w) (stdout w ++ [s])).
Proof. reflexivity. Qed.

Lemma bind_for_each_print {A B} (f : A -> str) l (k : unit -> prog B) w :
  bind (for_each l (fun x => print (f x))) k w
  = k tt (World (fs w) (stdout w ++ map f l)).
Proof. unfold bind. now rewrite for_each_print. Qed.

Lemma bind_open_write {B} p text (k : unit -> prog B) w :
  bind (open_write p text) k w
  = k tt (World (dict_set str_eqb (fs w) p text) (stdout w)).
Proof. reflexivity. Qed.

Lemma bind_path_exists {B} p (k : bool -> prog B) w :
  bind (path_exists p) k w
  = k (match dict_lookup str_eqb (fs w) p with
       | Some _ => true | None => false end) w.
Proof. reflexivity. Qed.

Lemma bind_open_read {B} p text (k : str -> prog B) w :
  dict_lookup str_eqb (fs w) p = Some text ->
  bind (open_read p) k w = k text w.
Proof. intros H. unfold bind, open_read. now rewrite H. Qed.

Lemma bind_lift {A B} (r : result A) (k : A -> prog B) w :
  bind (lift r) k w
  = match r with Ok a => k a w | Raise e => (w, Raise e) end.
Proof. reflexivity. Qed.

Section Runs.
Variable csv_reader : str -> list (list str).
Variable w : world.

(** The input file is absent: one line is printed and the function
    returns. *)
Lemma run_missing :
  dict_lookup str_eqb (fs w) csv_file = None ->
  extract_country_mapping csv_reader w
  = (World (fs w)
           (stdout w ++ [lit "Error: " ++ csv_file ++ lit " not found"]),
     Ok tt).
Proof.
  intros H. unfold extract_country_mapping.
  rewrite bind_path_exists, H. reflexivity.
Qed.

(** The loop raises: nothing was printed or written before. *)
Lemma run_raise text e :
  dict_lookup str_eqb (fs w) csv_file = Some text ->
  for_rows (DictReader csv_reader text) [] = Raise e ->
  extract_country_mapping csv_reader w = (w, Raise e).
Proof.
  intros H E. unfold extract_country_mapping.
  rewrite bind_path_exists, H. cbv beta iota delta [negb].
  rewrite (bind_open_read _ _ _ _ H), bind_lift, E. reflexivity.
Qed.

(** The loop completes: the report is printed and the file written. *)
Lemma run_ok text t :
  dict_lookup str_eqb (fs w) csv_file = Some text ->
  for_rows (DictReader csv_reader text) [] = Ok t ->
  extract_country_mapping csv_reader w
  = (World (dict_set str_eqb (fs w) output_file
              (json_dumps (mapping_json (sorted (items t)))))
           (stdout w ++ report (sorted (items t))),
     Ok tt).
Proof.
  intros H E. unfold extract_country_mapping.
  rewrite bind_path_exists, H. cbv beta iota delta [negb].
  rewrite (bind_open_read _ _ _ _ H), bind_lift, E. cbv beta iota zeta.
  repeat (rewrite ?bind_print, ?bind_for_each_print, ?bind_open_write;
          cbv beta iota delta [fs stdout]).
  unfold print, report. cbv beta iota delta [fs stdout].
  repeat rewrite <- app_assoc. reflexivity.
Qed.
End Runs.

(* ===================================================================== *)
(** ** The country table *)
(* ===================================================================== *)

Lemma retained_dec r code :
  (exists name, retained r code name) \/ (forall name, ~ retained r code name).
Proof.
  unfold retained.
  destruct (code_of r) as [c|e]; [|right; intros n (H & _); discriminate].
  destruct (name_of r) as [n|e];
    [|right; intros n' (_ & H & _); discriminate].
  destruct (list_eq_dec N.eq_dec c code) as [-> | Hc];
    [|right; intros n' (H & _); congruence].
  destruct code as [|x code]; [right; intros n' (_ & _ & H & _); congruence|].
  destruct n as [|y n]; [right; intros n' (_ & H & _ & H'); congruence|].
  left. exists (y :: n). repeat split; discriminate.
Qed.

Lemma bears_dec rows code : bears rows code \/ ~ bears rows code.
Proof.
  induction rows as [|r rows IH].
  - right. intros (r & n & [] & _).
  - rewrite bears_cons. destruct IH as [IH | IH]; [now left; right|].
    destruct (retained_dec r code) as [H | H]; [now left; left|].
    right. intros [[n R] | B]; [exact (H n R) | exact (IH B)].
Qed.

Lemma bears_last rows code :
  bears rows code <-> exists name, last_bearing rows code name.
Proof.
  split.
  - induction rows as [|r rows IH].
    + intros (r & n & [] & _).
    + intros B. destruct (bears_dec rows code) as [B' | B'].
      * destruct (IH B') as [n L]. exists n.
        apply last_bearing_cons. now right.
      * apply bears_cons in B. destruct B as [[n R] | B]; [|tauto].
        exists n. apply last_bearing_cons. now left.
  - intros (n & pre & r & post & -> & R & _).
    exists r, n. split; [|exact R]. apply in_or_app. right. now left.
Qed.

Lemma table_entries rows t :
  for_rows rows [] = Ok t ->
  forall code name, In (code, name) (items t) <-> last_bearing rows code name.
Proof.
  intros H code name. unfold items.
  rewrite <- (lookup_In str_eqb_eq)
    by (eapply for_rows_NoDup; [exact H | constructor]).
  rewrite (for_rows_lookup _ _ _ H). simpl. split; [|tauto].
  intros [L | [_ E]]; [exact L | discriminate].
Qed.

Lemma table_keys rows t :
  for_rows rows [] = Ok t ->
  forall code, In code (keys t) <-> bears rows code.
Proof.
  intros H code. rewrite bears_last. unfold keys. rewrite in_map_iff. split.
  - intros ([c n] & <- & Hin). exists n. now apply (table_entries _ _ H).
  - intros (n & L). exists (code, n). split; [reflexivity|].
    now apply (table_entries _ _ H).
Qed.

Lemma retained_clean r code name :
  retained r code name -> clean code /\ clean name.
Proof.
  intros (Hc & Hn & Hc' & Hn'). unfold code_of, name_of, strip_of in *.
  destruct (dict_get key_eqb r (Some REF_AREA) (VStr [])); try discriminate.
  destruct (dict_get key_eqb r (Some REF_AREA_LABEL) (VStr []));
    try discriminate.
  injection Hc as <-. injection Hn as <-.
  split; (split; [assumption | apply strip_no_outer_space]).
Qed.

Lemma scenario_readable : Forall readable (DictReader_rows scenario_input).
Proof.
  repeat constructor; eexists; eexists; split; vm_compute; reflexivity.
Defined.

Lemma ragged_readable : Forall readable (DictReader_rows ragged_input).
Proof.
  repeat constructor; eexists; eexists; split; vm_compute; reflexivity.
Defined.

Lemma shared_label_readable :
  Forall readable (DictReader_rows shared_label_input).
Proof.
  repeat constructor; eexists; eexists; split; vm_compute; reflexivity.
Defined.

(** C1: whatever the rows of the file, the table the loop builds has one
    entry for each code borne by a row whose trimmed code and label are
    both non-empty and no other one, and the label kept for a code is the
    label of the last such row of the file with that code. *)
Theorem table_last_write_wins (rows : list row) :
  Forall readable rows ->
  exists country_map,
    for_rows rows [] = Ok country_map
    /\ NoDup (keys country_map)
    /\ (forall code, In code (keys country_map) <-> bears rows code)
    /\ (forall code name,
          In (code, name) (items country_map)
          <-> last_bearing rows code name).
Proof.
  intros H. destruct (for_rows_readable rows [] H) as [t E].
  exists t. split; [exact E|]. split; [|split].
  - eapply for_rows_NoDup; [exact E | constructor].
  - now apply table_keys.
  - now apply table_entries.
Qed.

Lemma table_last_write_wins_witness :
  exists country_map,
    for_rows (DictReader_rows ragged_input) [] = Ok country_map
    /\ NoDup (keys country_map)
    /\ (forall code,
          In code (keys country_map)
          <-> bears (DictReader_rows ragged_input) code)
    /\ (forall code name,
          In (code, name) (items country_map)
          <-> last_bearing (DictReader_rows ragged_input) code name).
Proof.
  exact (table_last_write_wins (DictReader_rows ragged_input) ragged_readable).
Defined.

(* ===================================================================== *)
(** ** The sorted sequence *)
(* ===================================================================== *)

(** C4: the sequence given to the two blocks and to the two JSON maps is
    strictly ascending by code, in the lexicographic order of the strings,
    and it holds each code of the table once. *)
Theorem sorted_countries_ascending (rows : list row) :
  Forall readable rows ->
  exists country_map,
    for_rows rows [] = Ok country_map
    /\ StronglySorted code_lt (sorted (items country_map))
    /\ NoDup (map fst (sorted (items country_map)))
    /\ Permutation (sorted (items country_map)) (items country_map)
    /\ (forall code,
          In code (map fst (sorted (items country_map)))
          <-> bears rows code).
Proof.
  intros H. destruct (for_rows_readable rows [] H) as [t E].
  assert (Hnd : NoDup (map fst (items t))).
  { eapply for_rows_NoDup; [exact E | constructor]. }
  exists t. split; [exact E|]. repeat split.
  - now apply sorted_ascending.
  - now apply sorted_NoDup_keys.
  - apply sorted_perm.
  - intros Hin. apply (table_keys _ _ E).
    apply (Permutation_in _ (Permutation_map fst (sorted_perm (items t)))).
    exact Hin.
  - intros B. apply (table_keys _ _ E) in B.
    apply (Permutation_in _
             (Permutation_sym (Permutation_map fst (sorted_perm (items t))))).
    exact B.
Qed.

Lemma sorted_countries_ascending_witness :
  exists country_map,
    for_rows (DictReader_rows scenario_input) [] = Ok country_map
    /\ StronglySorted code_lt (sorted (items country_map))
    /\ NoDup (map fst (sorted (items country_map)))
    /\ Permutation (sorted (items country_map)) (items country_map)
    /\ (forall code,
          In code (map fst (sorted (items country_map)))
          <-> bears (DictReader_rows scenario_input) code).
Proof.
  exact (sorted_countries_ascending (DictReader_rows scenario_input)
                                    scenario_readable).
Defined.

(* ===================================================================== *)
(** ** The two maps *)
(* ===================================================================== *)

Lemma codeToName_lookup S code name :
  NoDup (map fst S) ->
  (dict_lookup str_eqb (codeToName S) code = Some name <-> In (code, name) S).
Proof.
  intros H. unfold codeToName. rewrite (dict_of_NoDup str_eqb_eq _ H).
  now apply (lookup_In str_eqb_eq).
Qed.

Lemma nameToCode_lookup S name code :
  dict_lookup str_eqb (nameToCode S) name = Some code
  <-> exists pre post,
        S = pre ++ (code, name) :: post /\ ~ In name (map snd post).
Proof.
  unfold nameToCode. rewrite (lookup_dict_of str_eqb_eq). unfold last_binding.
  split.
  - intros (pre' & post' & E & Hn).
    apply map_eq_app in E. destruct E as (pre & rest & -> & <- & E).
    apply map_eq_cons in E. destruct E as ([c n] & post & -> & E & <-).
    simpl in E. injection E as -> ->.
    exists pre, post. split; [reflexivity|].
    rewrite map_map in Hn. exact Hn.
  - intros (pre & post & -> & Hn).
    exists (map (fun kv => (snd kv, fst kv)) pre),
           (map (fun kv => (snd kv, fst kv)) post).
    split; [now rewrite map_app|]. now rewrite map_map.
Qed.

Lemma NoDup_keys_unique (S : list (str * str)) code name name' :
  NoDup (map fst S) -> In (code, name) S -> In (code, name') S -> name = name'.
Proof.
  intros H H1 H2.
  apply (lookup_In str_eqb_eq S code name H) in H1.
  apply (lookup_In str_eqb_eq S code name' H) in H2. congruence.
Qed.

Lemma NoDup_keys_middle (pre post : list (str * str)) code name name' :
  NoDup (map fst (pre ++ (code, name) :: post)) -> ~ In (code, name') post.
Proof.
  intros H Hin. rewrite map_app in H. simpl in H.
  apply NoDup_remove_2 in H. apply H. apply in_or_app. right.
  now apply (in_map fst) in Hin.
Qed.

(** From a label to its code and back. *)
Lemma name_code_name S name code :
  NoDup (map fst S) ->
  dict_lookup str_eqb (nameToCode S) name = Some code ->
  dict_lookup str_eqb (codeToName S) code = Some name.
Proof.
  intros H E. apply nameToCode_lookup in E.
  destruct E as (pre & post & -> & _).
  apply (codeToName_lookup _ _ _ H). apply in_or_app. right. now left.
Qed.

(** The code kept for a label is the greatest one that has it. *)
Lemma nameToCode_greatest S name code code' :
  StronglySorted code_lt S -> NoDup (map fst S) ->
  dict_lookup str_eqb (nameToCode S) name = Some code ->
  dict_lookup str_eqb (codeToName S) code' = Some name ->
  code' = code \/ str_lt code' code = true.
Proof.
  intros Hs H E E'. apply (codeToName_lookup _ _ _ H) in E'.
  apply nameToCode_lookup in E. destruct E as (pre & post & -> & Hn).
  apply in_app_or in E'. destruct E' as [Hin | [Heq | Hin]].
  - right. apply in_split in Hin. destruct Hin as (p1 & p2 & ->).
    rewrite <- app_assoc in Hs. simpl in Hs.
    apply (ascending_split p1 (code', name) (code, name)
                           (p2 ++ (code, name) :: post) Hs).
    apply in_or_app. right. now left.
  - left. congruence.
  - exfalso. apply Hn. now apply (in_map snd) in Hin.
Qed.

(** From a code to its label and back, when no other code has the label. *)
Lemma code_name_code S code name :
  NoDup (map fst S) ->
  dict_lookup str_eqb (codeToName S) code = Some name ->
  (forall code',
     dict_lookup str_eqb (codeToName S) code' = Some name -> code' = code) ->
  dict_lookup str_eqb (nameToCode S) name = Some code.
Proof.
  intros H E U. apply (codeToName_lookup _ _ _ H) in E.
  apply nameToCode_lookup. destruct (in_split _ _ E) as (pre & post & ->).
  exists pre, post. split; [reflexivity|].
  intros Hin. apply in_map_iff in Hin. destruct Hin as ([c n] & Hn & Hin).
  simpl in Hn. subst n.
  assert (c = code).
  { apply U. apply (codeToName_lookup _ _ _ H).
    apply in_or_app. right. now right. }
  subst c. exact (NoDup_keys_middle _ _ _ _ _ H Hin).
Qed.

(** Against C2 as it is stated: with the rows (CD, Congo) and (CG, Congo)
    codeToName sends CD to Congo, and nameToCode sends Congo to CG, not
    back to CD. *)
Lemma maps_not_inverse :
  for_rows (DictReader_rows shared_label_input) [] = Ok shared_label_table
  /\ dict_lookup str_eqb (codeToName (sorted (items shared_label_table)))
                 (lit "CD") = Some (lit "Congo")
  /\ dict_lookup str_eqb (nameToCode (sorted (items shared_label_table)))
                 (lit "Congo") = Some (lit "CG")
  /\ dict_lookup str_eqb (nameToCode (sorted (items shared_label_table)))
                 (lit "Congo") <> Some (lit "CD").
Proof.
  split; [vm_compute; reflexivity|].
  split; [vm_compute; reflexivity|].
  split; [vm_compute; reflexivity|].
  vm_compute. discriminate.
Qed.

(** C2, amended: every label of nameToCode is sent to a code that
    codeToName sends back to it; and a code of codeToName is found again
    from its label whenever no other code of codeToName has that label. *)
Theorem maps_inverse_up_to_shared_labels (rows : list row) :
  Forall readable rows ->
  exists country_map,
    for_rows rows [] = Ok country_map
    /\ (forall name code,
          dict_lookup str_eqb (nameToCode (sorted (items country_map))) name
          = Some code ->
          dict_lookup str_eqb (codeToName (sorted (items country_map))) code
          = Some name)
    /\ (forall code name,
          dict_lookup str_eqb (codeToName (sorted (items country_map))) code
          = Some name ->
          (forall code',
             dict_lookup str_eqb (codeToName (sorted (items country_map)))
                         code' = Some name -> code' = code) ->
          dict_lookup str_eqb (nameToCode (sorted (items country_map))) name
          = Some code).
Proof.
  intros H. destruct (for_rows_readable rows [] H) as [t E].
  assert (Hnd : NoDup (map fst (sorted (items t)))).
  { apply sorted_NoDup_keys. eapply for_rows_NoDup; [exact E | constructor]. }
  exists t. split; [exact E|]. split.
  - intros name code. now apply name_code_name.
  - intros code name. now apply code_name_code.
Qed.

Lemma maps_inverse_up_to_shared_labels_witness :
  exists country_map,
    for_rows (DictReader_rows scenario_input) [] = Ok country_map
    /\ (forall name code,
          dict_lookup str_eqb (nameToCode (sorted (items country_map))) name
          = Some code ->
          dict_lookup str_eqb (codeToName (sorted (items country_map))) code
          = Some name)
    /\ (forall code name,
          dict_lookup str_eqb (codeToName (sorted (items country_map))) code
          = Some name ->
          (forall code',
             dict_lookup str_eqb (codeToName (sorted (items country_map)))
                         code' = Some name -> code' = code) ->
          dict_lookup str_eqb (nameToCode (sorted (items country_map))) name
          = Some code).
Proof.
  exact (maps_inverse_up_to_shared_labels (DictReader_rows scenario_input)
                                          scenario_readable).
Defined.

(** C10: for every label that is a key of nameToCode, codeToName sends the
    code found under it back to the label; among the codes that
    codeToName sends to that label, the one nameToCode keeps is the last
    in the order of the strings. *)
Theorem name_round_trip (rows : list row) :
  Forall readable rows ->
  exists country_map,
    for_rows rows [] = Ok country_map
    /\ forall name code,
         dict_lookup str_eqb (nameToCode (sorted (items country_map))) name
         = Some code ->
         dict_lookup str_eqb (codeToName (sorted (items country_map))) code
         = Some name
         /\ forall code',
              dict_lookup str_eqb (codeToName (sorted (items country_map)))
                          code' = Some name ->
              code' = code \/ str_lt code' code = true.
Proof.
  intros H. destruct (for_rows_readable rows [] H) as [t E].
  assert (Hnd : NoDup (map fst (items t))).
  { eapply for_rows_NoDup; [exact E | constructor]. }
  exists t. split; [exact E|]. intros name code L. split.
  - apply name_code_name; [now apply sorted_NoDup_keys | exact L].
  - intros code' L'.
    apply (nameToCode_greatest (sorted (items t)) name); auto.
    + now apply sorted_ascending.
    + now apply sorted_NoDup_keys.
Qed.

Lemma name_round_trip_witness :
  exists country_map,
    for_rows (DictReader_rows shared_label_input) [] = Ok country_map
    /\ forall name code,
         dict_lookup str_eqb (nameToCode (sorted (items country_map))) name
         = Some code ->
         dict_lookup str_eqb (codeToName (sorted (items country_map))) code
         = Some name
         /\ forall code',
              dict_lookup str_eqb (codeToName (sorted (items country_map)))
                          code' = Some name ->
              code' = code \/ str_lt code' code = true.
Proof.
  exact (name_round_trip (DictReader_rows shared_label_input)
                         shared_label_readable).
Defined.

(* ===================================================================== *)
(** ** Trimmed, non-empty entries *)
(* ===================================================================== *)

(** C9: every code and every label of the table is non-empty and has no
    white space at either end, and so is every key and value of the sorted
    sequence and of the two maps built from it. *)
Theorem entries_clean (rows : list row) :
  Forall readable rows ->
  exists country_map,
    for_rows rows [] = Ok country_map
    /\ (forall code name,
          In (code, name) (items country_map) -> clean code /\ clean name)
    /\ (forall code name,
          In (code, name) (sorted (items country_map)) ->
          clean code /\ clean name)
    /\ (forall name code,
          In (name, code) (nameToCode (sorted (items country_map))) ->
          clean name /\ clean code)
    /\ (forall code name,
          In (code, name) (codeToName (sorted (items country_map))) ->
          clean code /\ clean name).
Proof.
  intros H. destruct (for_rows_readable rows [] H) as [t E].
  assert (T : forall code name,
             In (code, name) (items t) -> clean code /\ clean name).
  { intros code name Hin. apply (table_entries _ _ E) in Hin.
    destruct Hin as (pre & r & post & _ & R & _).
    exact (retained_clean _ _ _ R). }
  assert (S : forall code name,
             In (code, name) (sorted (items t)) -> clean code /\ clean name).
  { intros code name Hin. apply T. now apply sorted_In. }
  exists t. split; [exact E|].
  split; [exact T|]. split; [exact S|]. split.
  - intros name code Hin. apply (in_dict_of str_eqb_eq) in Hin.
    apply in_map_iff in Hin. destruct Hin as ([c n] & [= <- <-] & Hin).
    destruct (S c n Hin). now split.
  - intros code name Hin. apply (in_dict_of str_eqb_eq) in Hin.
    now apply S.
Qed.

Lemma entries_clean_witness :
  exists country_map,
    for_rows (DictReader_rows ragged_input) [] = Ok country_map
    /\ (forall code name,
          In (code, name) (items country_map) -> clean code /\ clean name)
    /\ (forall code name,
          In (code, name) (sorted (items country_map)) ->
          clean code /\ clean name)
    /\ (forall name code,
          In (name, code) (nameToCode (sorted (items country_map))) ->
          clean name /\ clean code)
    /\ (forall code name,
          In (code, name) (codeToName (sorted (items country_map))) ->
          clean code /\ clean name).
Proof.
  exact (entries_clean (DictReader_rows ragged_input) ragged_readable).
Defined.

(* ===================================================================== *)
(** ** The run as a whole *)
(* ===================================================================== *)

Lemma contains_middle (a t b : str) : contains (a ++ t ++ b) t.
Proof. now exists a, b. Qed.

(** C5: when the input path is not an existing file, the run prints one
    line, which contains the path, leaves every file as it was, prints
    nothing else and ends with status 0.  Nothing else is handled: a row
    that cannot be trimmed ends the run with an exception and status 1. *)
Theorem missing_input_reported csv_reader (w : world) :
  dict_lookup str_eqb (fs w) csv_file = None ->
  extract_country_mapping csv_reader w
  = (World (fs w)
           (stdout w ++ [lit "Error: " ++ csv_file ++ lit " not found"]),
     Ok tt)
  /\ contains (lit "Error: " ++ csv_file ++ lit " not found") csv_file
  /\ main csv_reader w
     = (World (fs w)
              (stdout w ++ [lit "Error: " ++ csv_file ++ lit " not found"]),
        0%N)
  /\ (forall w' text,
        dict_lookup str_eqb (fs w') csv_file = Some text ->
        ~ Forall readable (DictReader csv_reader text) ->
        extract_country_mapping csv_reader w' = (w', Raise AttributeError)
        /\ main csv_reader w' = (w', 1%N)).
Proof.
  intros H. pose proof (run_missing csv_reader w H) as R.
  split; [exact R|]. split; [apply contains_middle|]. split.
  - unfold main. now rewrite R.
  - intros w' text H' U.
    pose proof (run_raise csv_reader w' text AttributeError H'
                  (for_rows_unreadable _ [] U)) as R'.
    split; [exact R'|]. unfold main. now rewrite R'.
Qed.

Lemma missing_input_reported_witness :
  extract_country_mapping (reader_of scenario_input) bare_world
  = (World (fs bare_world)
           (stdout bare_world
            ++ [lit "Error: " ++ csv_file ++ lit " not found"]),
     Ok tt)
  /\ contains (lit "Error: " ++ csv_file ++ lit " not found") csv_file
  /\ main (reader_of scenario_input) bare_world
     = (World (fs bare_world)
              (stdout bare_world
               ++ [lit "Error: " ++ csv_file ++ lit " not found"]),
        0%N)
  /\ (forall w' text,
        dict_lookup str_eqb (fs w') csv_file = Some text ->
        ~ Forall readable (DictReader (reader_of scenario_input) text) ->
        extract_country_mapping (reader_of scenario_input) w'
        = (w', Raise AttributeError)
        /\ main (reader_of scenario_input) w' = (w', 1%N)).
Proof.
  apply (missing_input_reported (reader_of scenario_input) bare_world).
  reflexivity.
Defined.

(** C3: a row of the file that has a code and no label field, because it
    is shorter than the header, is not taken as a row with an empty label
    and passed over: its label is [None], trimming it raises
    AttributeError and the run ends there, with status 1, nothing printed
    and no file written. *)
Theorem short_row_aborts csv_reader (w : world) text :
  dict_lookup str_eqb (fs w) csv_file = Some text ->
  csv_reader text = short_row_input ->
  DictReader csv_reader text
  = [ [ (Some REF_AREA, VStr (lit "US")); (Some REF_AREA_LABEL, VNone) ] ]
  /\ extract_country_mapping csv_reader w = (w, Raise AttributeError)
  /\ main csv_reader w = (w, 1%N).
Proof.
  intros H E.
  assert (D : DictReader csv_reader text
              = [ [ (Some REF_AREA, VStr (lit "US"));
                    (Some REF_AREA_LABEL, VNone) ] ]).
  { unfold DictReader. rewrite E. vm_compute. reflexivity. }
  assert (R : extract_country_mapping csv_reader w
              = (w, Raise AttributeError)).
  { apply (run_raise csv_reader w text AttributeError H).
    rewrite D. vm_compute. reflexivity. }
  split; [exact D|]. split; [exact R|]. unfold main. now rewrite R.
Qed.

Lemma short_row_aborts_witness :
  DictReader (reader_of short_row_input) []
  = [ [ (Some REF_AREA, VStr (lit "US")); (Some REF_AREA_LABEL, VNone) ] ]
  /\ extract_country_mapping (reader_of short_row_input) start_world
     = (start_world, Raise AttributeError)
  /\ main (reader_of short_row_input) start_world = (start_world, 1%N).
Proof.
  apply (short_row_aborts (reader_of short_row_input) start_world []);
    reflexivity.
Defined.

(** What does hold of the rows that are passed over: a field whose key
    is absent from the row reads as the empty string. *)
Lemma absent_field_empty (r : row) :
  (dict_lookup key_eqb r (Some REF_AREA) = None -> code_of r = Ok [])
  /\ (dict_lookup key_eqb r (Some REF_AREA_LABEL) = None ->
      name_of r = Ok []).
Proof.
  unfold code_of, name_of, dict_get.
  split; intros ->; reflexivity.
Qed.

(** A row whose trimmed code or label is empty leaves the table as it is,
    so the run is the run on the file without that row. *)
Lemma skipped_row_no_trace pre r post code name m :
  code_of r = Ok code -> name_of r = Ok name -> code = [] \/ name = [] ->
  for_rows (pre ++ r :: post) m = for_rows (pre ++ post) m.
Proof.
  intros Hc Hn He. rewrite !for_rows_app.
  destruct (for_rows pre m) as [m'|e]; simpl; [|reflexivity].
  now rewrite (loop_body_skipped m' r code name Hc Hn He).
Qed.

(* ===================================================================== *)
(** ** The scenario of the specification *)
(* ===================================================================== *)

(** C6: on the file with the header REF_AREA,REF_AREA_LABEL and the rows
    (US, United States), (US, United States of America), (FR, France), the
    table maps FR to France and US to United States of America and has no
    other code, the sorted sequence is FR then US, the object serialized
    has nameToCode France: FR, United States of America: US and codeToName
    FR: France, US: United States of America, and that is the text
    written to the output file. *)
Theorem scenario_end_to_end csv_reader (w : world) text :
  dict_lookup str_eqb (fs w) csv_file = Some text ->
  csv_reader text = scenario_input ->
  for_rows (DictReader csv_reader text) [] = Ok scenario_table
  /\ Permutation (items scenario_table)
                 [ (lit "FR", lit "France");
                   (lit "US", lit "United States of America") ]
  /\ sorted (items scenario_table) = scenario_sorted
  /\ map fst scenario_sorted = [lit "FR"; lit "US"]
  /\ mapping_json scenario_sorted = scenario_json
  /\ json_dumps scenario_json = scenario_text
  /\ extract_country_mapping csv_reader w
     = (World (dict_set str_eqb (fs w) output_file scenario_text)
              (stdout w ++ report scenario_sorted),
        Ok tt).
Proof.
  intros H E.
  assert (T : for_rows (DictReader csv_reader text) [] = Ok scenario_table).
  { unfold DictReader. rewrite E. vm_compute. reflexivity. }
  split; [exact T|].
  split; [apply perm_swap|].
  split; [vm_compute; reflexivity|].
  split; [reflexivity|].
  split; [vm_compute; reflexivity|].
  split; [vm_compute; reflexivity|].
  rewrite (run_ok csv_reader w text scenario_table H T).
  replace (sorted (items scenario_table)) with scenario_sorted
    by (vm_compute; reflexivity).
  replace (json_dumps (mapping_json scenario_sorted)) with scenario_text
    by (vm_compute; reflexivity).
  reflexivity.
Qed.

Lemma scenario_end_to_end_witness :
  for_rows (DictReader (reader_of scenario_input) []) [] = Ok scenario_table
  /\ Permutation (items scenario_table)
                 [ (lit "FR", lit "France");
                   (lit "US", lit "United States of America") ]
  /\ sorted (items scenario_table) = scenario_sorted
  /\ map fst scenario_sorted = [lit "FR"; lit "US"]
  /\ mapping_json scenario_sorted = scenario_json
  /\ json_dumps scenario_json = scenario_text
  /\ extract_country_mapping (reader_of scenario_input) start_world
     = (World (dict_set str_eqb (fs start_world) output_file scenario_text)
              (stdout start_world ++ report scenario_sorted),
        Ok tt).
Proof.
  apply (scenario_end_to_end (reader_of scenario_input) start_world []);
    reflexivity.
Defined.

(* ===================================================================== *)
(** ** The printed snippet *)
(* ===================================================================== *)

Lemma escaped_app a b : escaped (a ++ b) = escaped a ++ escaped b.
Proof. unfold escaped, replace. apply flat_map_app. Qed.

Lemma escaped_quote pre post :
  escaped (pre ++ quote :: post) = escaped pre ++ lit "\'" ++ escaped post.
Proof. rewrite escaped_app. reflexivity. Qed.

Lemma escaped_plain name : ~ In quote name -> escaped name = name.
Proof.
  induction name as [|c name IH]; simpl; intros H; [reflexivity|].
  unfold escaped, replace in *. simpl.
  destruct (N.eqb_spec c quote) as [-> | Hc]; [tauto|].
  simpl. rewrite IH; tauto.
Qed.

(** C7: in a run that completes, the first block has, for each entry of
    the sorted sequence and in its order, the line with the escaped label
    before the code, and the second block the line with the code before the
    escaped label; in the escaped label a backslash stands before each
    single quote of the label and nothing else is changed, so a label
    without a single quote is printed as it is. *)
Theorem snippet_quotes_escaped csv_reader (w : world) text country_map :
  dict_lookup str_eqb (fs w) csv_file = Some text ->
  for_rows (DictReader csv_reader text) [] = Ok country_map ->
  (exists head mid tail,
      stdout (fst (extract_country_mapping csv_reader w))
      = stdout w ++ head
        ++ map (fun kv => lit "  '" ++ escaped (snd kv) ++ lit "': '"
                          ++ fst kv ++ lit "',")
               (sorted (items country_map))
        ++ mid
        ++ map (fun kv => lit "  '" ++ fst kv ++ lit "': '"
                          ++ escaped (snd kv) ++ lit "',")
               (sorted (items country_map))
        ++ tail
      /\ last head [] = lit "const IMF_COUNTRY_MAP = {"
      /\ last mid [] = lit "const CODE_TO_NAME = {"
      /\ hd [] mid = lit "}" ++ newline
      /\ hd [] tail = lit "}" ++ newline)
  /\ (forall pre post,
        escaped (pre ++ quote :: post)
        = escaped pre ++ lit "\" ++ [quote] ++ escaped post)
  /\ (forall name, ~ In quote name -> escaped name = name).
Proof.
  intros H E. split; [|split].
  - rewrite (run_ok csv_reader w text country_map H E). simpl fst.
    cbv beta iota delta [stdout]. unfold report.
    eexists _, _, _. split.
    + f_equal. f_equal. f_equal.
      * apply map_ext. now intros [c n].
      * f_equal. f_equal. apply map_ext. now intros [c n].
    + repeat split.
  - apply escaped_quote.
  - apply escaped_plain.
Qed.

Lemma ragged_run :
  for_rows (DictReader (reader_of ragged_input) []) [] = Ok ragged_table.
Proof. vm_compute. reflexivity. Defined.

Lemma snippet_quotes_escaped_witness :
  (exists head mid tail,
      stdout (fst (extract_country_mapping (reader_of ragged_input)
                                           start_world))
      = stdout start_world ++ head
        ++ map (fun kv => lit "  '" ++ escaped (snd kv) ++ lit "': '"
                          ++ fst kv ++ lit "',")
               (sorted (items ragged_table))
        ++ mid
        ++ map (fun kv => lit "  '" ++ fst kv ++ lit "': '"
                          ++ escaped (snd kv) ++ lit "',")
               (sorted (items ragged_table))
        ++ tail
      /\ last head [] = lit "const IMF_COUNTRY_MAP = {"
      /\ last mid [] = lit "const CODE_TO_NAME = {"
      /\ hd [] mid = lit "}" ++ newline
      /\ hd [] tail = lit "}" ++ newline)
  /\ (forall pre post,
        escaped (pre ++ quote :: post)
        = escaped pre ++ lit "\" ++ [quote] ++ escaped post)
  /\ (forall name, ~ In quote name -> escaped name = name).
Proof.
  apply (snippet_quotes_escaped (reader_of ragged_input) start_world []
                                ragged_table);
    [reflexivity | exact ragged_run].
Defined.

(* ===================================================================== *)
(** ** The JSON file *)
(* ===================================================================== *)

Lemma escape_char_plain c :
  (32 <= c)%N -> c <> 34%N -> c <> 92%N -> escape_char c = [c].
Proof.
  intros H1 H2 H3. unfold escape_char.
  destruct (N.eqb_spec c 92); [congruence|].
  destruct (N.eqb_spec c 34); [congruence|].
  destruct (N.eqb_spec c 8); [lia|].
  destruct (N.eqb_spec c 12); [lia|].
  destruct (N.eqb_spec c 10); [lia|].
  destruct (N.eqb_spec c 13); [lia|].
  destruct (N.eqb_spec c 9); [lia|].
  destruct (N.ltb_spec c 32); [lia | reflexivity].
Qed.

Lemma encode_basestring_non_ascii s :
  Forall (fun c => (128 <= c)%N) s -> encode_basestring s = dquote ++ s ++ dquote.
Proof.
  intros H. unfold encode_basestring. f_equal. f_equal.
  induction H as [|c s Hc _ IH]; simpl; [reflexivity|].
  rewrite escape_char_plain by lia. simpl. now rewrite IH.
Qed.

Lemma encode_basestring_keeps pre c post :
  (128 <= c)%N ->
  encode_basestring (pre ++ c :: post)
  = dquote ++ flat_map escape_char pre
    ++ c :: flat_map escape_char post ++ dquote.
Proof.
  intros H. unfold encode_basestring.
  rewrite flat_map_app. simpl flat_map.
  rewrite escape_char_plain by lia.
  now rewrite <- !app_assoc.
Qed.

Lemma encode_basestring_plain s :
  Forall (fun c => (32 <= c)%N /\ c <> 34%N /\ c <> 92%N) s ->
  encode_basestring s = dquote ++ s ++ dquote.
Proof.
  intros H. unfold encode_basestring. f_equal. f_equal.
  induction H as [|c s (H1 & H2 & H3) _ IH]; simpl; [reflexivity|].
  rewrite escape_char_plain by assumption. simpl. now rewrite IH.
Qed.

Lemma escape_char_control c :
  (c < 32)%N ->
  c <> 8%N -> c <> 9%N -> c <> 10%N -> c <> 12%N -> c <> 13%N ->
  escape_char c = lit "\u00" ++ [hex_digit (c / 16); hex_digit (c mod 16)].
Proof.
  intros H H8 H9 H10 H12 H13. unfold escape_char.
  destruct (N.eqb_spec c 92); [lia|].
  destruct (N.eqb_spec c 34); [lia|].
  destruct (N.eqb_spec c 8); [congruence|].
  destruct (N.eqb_spec c 12); [congruence|].
  destruct (N.eqb_spec c 10); [congruence|].
  destruct (N.eqb_spec c 13); [congruence|].
  destruct (N.eqb_spec c 9); [congruence|].
  destruct (N.ltb_spec c 32); [reflexivity | lia].
Qed.

Lemma hex_digit_low n : (n < 10)%N -> hex_digit n = (48 + n)%N.
Proof. intros H. unfold hex_digit. now destruct (N.ltb_spec n 10); [|lia]. Qed.

Lemma hex_digit_high n : (10 <= n)%N -> hex_digit n = (87 + n)%N.
Proof. intros H. unfold hex_digit. now destruct (N.ltb_spec n 10); [lia|]. Qed.

Lemma iterencode_inner (d : dict str str) :
  d <> [] ->
  iterencode (json_of_dict d) 1
  = lit "{" ++ newline ++ lit "    "
    ++ join (lit "," ++ newline ++ lit "    ")
         (map (fun kv => encode_basestring (fst kv) ++ lit ": "
                         ++ encode_basestring (snd kv)) d)
    ++ newline ++ lit "  " ++ lit "}".
Proof.
  intros H. unfold json_of_dict.
  assert (M : map (fun kv => encode_basestring (fst kv) ++ lit ": "
                             ++ iterencode (snd kv) 2)
                  (map (fun kv => (fst kv, JStr (snd kv))) d)
              = map (fun kv => encode_basestring (fst kv) ++ lit ": "
                               ++ encode_basestring (snd kv)) d).
  { rewrite map_map. apply map_ext. reflexivity. }
  destruct d as [|kv d]; [congruence|].
  rewrite <- M. reflexivity.
Qed.

Lemma json_dumps_outer (n2c c2n : dict str str) :
  json_dumps (JObj [ (lit "nameToCode", json_of_dict n2c);
                     (lit "codeToName", json_of_dict c2n) ])
  = lit "{" ++ newline
    ++ lit "  " ++ quoted "nameToCode" ++ lit ": "
    ++ iterencode (json_of_dict n2c) 1 ++ lit "," ++ newline
    ++ lit "  " ++ quoted "codeToName" ++ lit ": "
    ++ iterencode (json_of_dict c2n) 1 ++ newline
    ++ lit "}".
Proof.
  unfold json_dumps.
  set (a := iterencode (json_of_dict n2c) 1).
  set (b := iterencode (json_of_dict c2n) 1).
  change (iterencode (JObj [ (lit "nameToCode", json_of_dict n2c);
                             (lit "codeToName", json_of_dict c2n) ]) 0)
    with (lit "{" ++ (newline ++ lit "  ")
          ++ ((quoted "nameToCode" ++ lit ": " ++ a)
              ++ (lit "," ++ newline ++ lit "  ")
              ++ (quoted "codeToName" ++ lit ": " ++ b))
          ++ newline ++ lit "}").
  repeat rewrite <- app_assoc. reflexivity.
Qed.

(** C8: a run that completes leaves in country-mapping.json, whatever
    was there before and with every other file untouched, the text of one
    JSON object with the two keys nameToCode and codeToName, in this order,
    the first the dict from label to code and the second the dict from
    code to label, both filled in the order of the sorted sequence; each
    level of nesting is indented by two more spaces.  A string is written
    between double quotes, character by character: every character beyond
    ASCII, wherever it stands in the string, and every other character
    from the space on except the double quote and the backslash is
    written as it is; these two get a backslash before them and the
    control characters their short escape or \u00 and two hex digits. *)
Theorem json_file_written csv_reader (w : world) text country_map :
  dict_lookup str_eqb (fs w) csv_file = Some text ->
  for_rows (DictReader csv_reader text) [] = Ok country_map ->
  snd (extract_country_mapping csv_reader w) = Ok tt
  /\ output_file = lit "country-mapping.json"
  /\ dict_lookup str_eqb (fs (fst (extract_country_mapping csv_reader w)))
                 output_file
     = Some (json_dumps
               (JObj [ (lit "nameToCode",
                        json_of_dict
                          (dict_of str_eqb
                             (map (fun kv => (snd kv, fst kv))
                                  (sorted (items country_map)))));
                       (lit "codeToName",
                        json_of_dict
                          (dict_of str_eqb (sorted (items country_map)))) ]))
  /\ (forall p, p <> output_file ->
        dict_lookup str_eqb (fs (fst (extract_country_mapping csv_reader w))) p
        = dict_lookup str_eqb (fs w) p)
  /\ (forall n2c c2n : dict str str,
        json_dumps (JObj [ (lit "nameToCode", json_of_dict n2c);
                           (lit "codeToName", json_of_dict c2n) ])
        = lit "{" ++ newline
          ++ lit "  " ++ quoted "nameToCode" ++ lit ": "
          ++ iterencode (json_of_dict n2c) 1 ++ lit "," ++ newline
          ++ lit "  " ++ quoted "codeToName" ++ lit ": "
          ++ iterencode (json_of_dict c2n) 1 ++ newline
          ++ lit "}")
  /\ (forall d : dict str str,
        d <> [] ->
        iterencode (json_of_dict d) 1
        = lit "{" ++ newline ++ lit "    "
          ++ join (lit "," ++ newline ++ lit "    ")
               (map (fun kv => encode_basestring (fst kv) ++ lit ": "
                               ++ encode_basestring (snd kv)) d)
          ++ newline ++ lit "  " ++ lit "}")
  /\ (forall s, Forall (fun c => (128 <= c)%N) s ->
                encode_basestring s = dquote ++ s ++ dquote)
  /\ (forall s, encode_basestring s
                = dquote ++ flat_map escape_char s ++ dquote)
  /\ (forall c, (32 <= c)%N -> c <> 34%N -> c <> 92%N -> escape_char c = [c])
  /\ (forall pre c post,
        (128 <= c)%N ->
        encode_basestring (pre ++ c :: post)
        = dquote ++ flat_map escape_char pre
          ++ c :: flat_map escape_char post ++ dquote)
  /\ (forall s,
        Forall (fun c => (32 <= c)%N /\ c <> 34%N /\ c <> 92%N) s ->
        encode_basestring s = dquote ++ s ++ dquote)
  /\ escape_char 34%N = lit "\" ++ dquote
  /\ escape_char 92%N = lit "\\"
  /\ escape_char 8%N = lit "\b"
  /\ escape_char 9%N = lit "\t"
  /\ escape_char 10%N = lit "\n"
  /\ escape_char 12%N = lit "\f"
  /\ escape_char 13%N = lit "\r"
  /\ (forall c,
        (c < 32)%N ->
        c <> 8%N -> c <> 9%N -> c <> 10%N -> c <> 12%N -> c <> 13%N ->
        escape_char c
        = lit "\u00" ++ [hex_digit (c / 16); hex_digit (c mod 16)])
  /\ (forall n, (n < 10)%N -> hex_digit n = (48 + n)%N)
  /\ (forall n, (10 <= n)%N -> hex_digit n = (87 + n)%N).
Proof.
  intros H E. rewrite (run_ok csv_reader w text country_map H E).
  cbn [fst snd fs].
  split; [reflexivity|]. split; [reflexivity|]. split.
  - now rewrite (lookup_set_eq str_eqb_eq).
  - split.
    + intros p Hp. apply (lookup_set_ne str_eqb_eq). congruence.
    + split; [exact json_dumps_outer|].
      split; [exact iterencode_inner|].
      split; [exact encode_basestring_non_ascii|].
      split; [reflexivity|].
      split; [exact escape_char_plain|].
      split; [exact encode_basestring_keeps|].
      split; [exact encode_basestring_plain|].
      do 7 (split; [reflexivity|]).
      split; [exact escape_char_control|].
      split; [exact hex_digit_low | exact hex_digit_high].
Qed.

Lemma json_file_written_witness :
  snd (extract_country_mapping (reader_of ragged_input) start_world) = Ok tt
  /\ output_file = lit "country-mapping.json"
  /\ dict_lookup str_eqb
       (fs (fst (extract_country_mapping (reader_of ragged_input)
                                         start_world)))
       output_file
     = Some (json_dumps
               (JObj [ (lit "nameToCode",
                        json_of_dict
                          (dict_of str_eqb
                             (map (fun kv => (snd kv, fst kv))
                                  (sorted (items ragged_table)))));
                       (lit "codeToName",
                        json_of_dict
                          (dict_of str_eqb (sorted (items ragged_table)))) ]))
  /\ (forall p, p <> output_file ->
        dict_lookup str_eqb
          (fs (fst (extract_country_mapping (reader_of ragged_input)
                                            start_world))) p
        = dict_lookup str_eqb (fs start_world) p)
  /\ (forall n2c c2n : dict str str,
        json_dumps (JObj [ (lit "nameToCode", json_of_dict n2c);
                           (lit "codeToName", json_of_dict c2n) ])
        = lit "{" ++ newline
          ++ lit "  " ++ quoted "nameToCode" ++ lit ": "
          ++ iterencode (json_of_dict n2c) 1 ++ lit "," ++ newline
          ++ lit "  " ++ quoted "codeToName" ++ lit ": "
          ++ iterencode (json_of_dict c2n) 1 ++ newline
          ++ lit "}")
  /\ (forall d : dict str str,
        d <> [] ->
        iterencode (json_of_dict d) 1
        = lit "{" ++ newline ++ lit "    "
          ++ join (lit "," ++ newline ++ lit "    ")
               (map (fun kv => encode_basestring (fst kv) ++ lit ": "
                               ++ encode_basestring (snd kv)) d)
          ++ newline ++ lit "  " ++ lit "}")
  /\ (forall s, Forall (fun c => (128 <= c)%N) s ->
                encode_basestring s = dquote ++ s ++ dquote)
  /\ (forall s, encode_basestring s
                = dquote ++ flat_map escape_char s ++ dquote)
  /\ (forall c, (32 <= c)%N -> c <> 34%N -> c <> 92%N -> escape_char c = [c])
  /\ (forall pre c post,
        (128 <= c)%N ->
        encode_basestring (pre ++ c :: post)
        = dquote ++ flat_map escape_char pre
          ++ c :: flat_map escape_char post ++ dquote)
  /\ (forall s,
        Forall (fun c => (32 <= c)%N /\ c <> 34%N /\ c <> 92%N) s ->
        encode_basestring s = dquote ++ s ++ dquote)
  /\ escape_char 34%N = lit "\" ++ dquote
  /\ escape_char 92%N = lit "\\"
  /\ escape_char 8%N = lit "\b"
  /\ escape_char 9%N = lit "\t"
  /\ escape_char 10%N = lit "\n"
  /\ escape_char 12%N = lit "\f"
  /\ escape_char 13%N = lit "\r"
  /\ (forall c,
        (c < 32)%N ->
        c <> 8%N -> c <> 9%N -> c <> 10%N -> c <> 12%N -> c <> 13%N ->
        escape_char c
        = lit "\u00" ++ [hex_digit (c / 16); hex_digit (c mod 16)])
  /\ (forall n, (n < 10)%N -> hex_digit n = (48 + n)%N)
  /\ (forall n, (10 <= n)%N -> hex_digit n = (87 + n)%N).
Proof.
  apply (json_file_written (reader_of ragged_input) start_world []
                           ragged_table);
    [reflexivity | exact ragged_run].
Defined.

(* ===================================================================== *)
(** ** Rows of the reader and the rows the loop can trim *)
(* ===================================================================== *)

Lemma key_eqb_eq (a b : key) : key_eqb a b = true <-> a = b.
Proof.
  destruct a as [x|], b as [y|]; simpl; try (split; congruence).
  rewrite str_eqb_eq. split; congruence.
Qed.

Lemma lookup_absent {K V} (eqb : K -> K -> bool) (d : dict K V) k :
  (forall a b, eqb a b = true <-> a = b) ->
  ~ In k (keys d) -> dict_lookup eqb d k = None.
Proof.
  intros Heq. induction d as [|[k0 v0] d IH]; simpl; intros H; [reflexivity|].
  destruct (eqb k0 k) eqn:E; [apply Heq in E; tauto|].
  apply IH. tauto.
Qed.

Lemma dict_set_twice {K V} (eqb : K -> K -> bool) (d : dict K V) k v v' :
  (forall a b, eqb a b = true <-> a = b) ->
  dict_set eqb (dict_set eqb d k v) k v' = dict_set eqb d k v'.
Proof.
  intros Heq. induction d as [|[k0 v0] d IH]; simpl.
  - now rewrite (proj2 (Heq k k) eq_refl).
  - destruct (eqb k0 k) eqn:E; simpl; rewrite E; [reflexivity|].
    now rewrite IH.
Qed.

Lemma dict_set_length {K V} (eqb : K -> K -> bool) (d : dict K V) k v :
  length (dict_set eqb d k v) <= S (length d).
Proof.
  induction d as [|[k0 v0] d IH]; simpl; [lia|].
  destruct (eqb k0 k); simpl; lia.
Qed.

Lemma strings_only_readable r : strings_only r -> readable r.
Proof.
  intros H. unfold readable, code_of, name_of, dict_get.
  destruct (dict_lookup key_eqb r (Some REF_AREA)) as [v|] eqn:E1;
    [destruct (H _ _ E1) as [s1 ->]|];
    (destruct (dict_lookup key_eqb r (Some REF_AREA_LABEL)) as [v'|] eqn:E2;
     [destruct (H _ _ E2) as [s2 ->]|]);
    simpl; eexists; eexists; split; reflexivity.
Qed.

Lemma zipped_strings_only fieldnames r :
  strings_only (dict_of key_eqb (combine (map Some fieldnames) (map VStr r))).
Proof.
  intros k v E.
  apply (lookup_In key_eqb_eq) in E; [|apply (NoDup_keys_dict_of key_eqb_eq)].
  apply (in_dict_of key_eqb_eq) in E. apply in_combine_r in E.
  apply in_map_iff in E. destruct E as (s & <- & _). now exists s.
Qed.

Lemma zipped_keys fieldnames r k :
  In (Some k)
     (keys (dict_of key_eqb (combine (map Some fieldnames) (map VStr r)))) ->
  In k fieldnames.
Proof.
  unfold keys. intros H. apply in_map_iff in H.
  destruct H as ([k' v] & Hk & Hin). simpl in Hk. subst k'.
  apply (in_dict_of key_eqb_eq) in Hin. apply in_combine_l in Hin.
  apply in_map_iff in Hin. destruct Hin as (x & [= ->] & Hx). exact Hx.
Qed.

Lemma fill_keys ks : forall (d : row) k,
  In (Some k)
     (keys (fold_left (fun d k => dict_set key_eqb d (Some k) VNone) ks d)) ->
  In k ks \/ In (Some k) (keys d).
Proof.
  induction ks as [|k0 ks IH]; intros d k H; simpl in H; [now right|].
  apply IH in H. destruct H as [H | H]; [left; now right|].
  apply (keys_set key_eqb_eq) in H. destruct H as [[= ->] | H].
  - left. now left.
  - now right.
Qed.

Lemma fill_kept ks : forall (d : row) k,
  dict_lookup key_eqb d (Some k) = Some VNone ->
  dict_lookup key_eqb
    (fold_left (fun d k => dict_set key_eqb d (Some k) VNone) ks d) (Some k)
  = Some VNone.
Proof.
  induction ks as [|k0 ks IH]; intros d k H; simpl; [exact H|].
  apply IH. destruct (list_eq_dec N.eq_dec k0 k) as [-> | Hne].
  - apply (lookup_set_eq key_eqb_eq).
  - rewrite (lookup_set_ne key_eqb_eq) by congruence. exact H.
Qed.

Lemma fill_none ks : forall (d : row) k,
  In k ks ->
  dict_lookup key_eqb
    (fold_left (fun d k => dict_set key_eqb d (Some k) VNone) ks d) (Some k)
  = Some VNone.
Proof.
  induction ks as [|k0 ks IH]; intros d k H; simpl; [destruct H|].
  destruct H as [-> | H].
  - apply fill_kept. apply (lookup_set_eq key_eqb_eq).
  - now apply IH.
Qed.

(** A row with a field for every column can be trimmed. *)
Lemma full_row_readable fieldnames r :
  full_row fieldnames r -> readable (DictReader_row fieldnames r).
Proof.
  unfold full_row. intros H. apply strings_only_readable.
  unfold DictReader_row.
  destruct (length fieldnames <? length r) eqn:E1.
  - intros k v L. rewrite (lookup_set_ne key_eqb_eq) in L by discriminate.
    exact (zipped_strings_only fieldnames r k v L).
  - destruct (length r <? length fieldnames) eqn:E2.
    + apply Nat.ltb_lt in E2. lia.
    + apply zipped_strings_only.
Qed.

(** A row that stops before one of the two columns cannot. *)
Lemma short_row_unreadable fieldnames r :
  lacks_field fieldnames r REF_AREA \/ lacks_field fieldnames r REF_AREA_LABEL ->
  ~ readable (DictReader_row fieldnames r).
Proof.
  unfold lacks_field. intros H (code & name & Hc & Hn).
  assert (Hlt : length r < length fieldnames).
  { destruct (Nat.lt_ge_cases (length r) (length fieldnames)) as [L | L];
      [exact L|].
    rewrite skipn_all2 in H by exact L. destruct H as [[] | []]. }
  unfold DictReader_row in Hc, Hn.
  replace (length fieldnames <? length r) with false in Hc, Hn
    by (symmetry; apply Nat.ltb_ge; lia).
  replace (length r <? length fieldnames) with true in Hc, Hn
    by (symmetry; apply Nat.ltb_lt; lia).
  unfold code_of, name_of, dict_get in Hc, Hn.
  destruct H as [H | H]; apply fill_none with
    (d := dict_of key_eqb (combine (map Some fieldnames) (map VStr r))) in H.
  - rewrite H in Hc. discriminate.
  - rewrite H in Hn. discriminate.
Qed.

(** A column the header does not name is absent from every row. *)
Lemma absent_column fieldnames r k :
  ~ In k fieldnames ->
  dict_lookup key_eqb (DictReader_row fieldnames r) (Some k) = None.
Proof.
  intros H. apply (lookup_absent key_eqb _ _ key_eqb_eq). intros Hin.
  unfold DictReader_row in Hin.
  destruct (length fieldnames <? length r).
  - apply (keys_set key_eqb_eq) in Hin. destruct Hin as [Hin | Hin];
      [discriminate|]. exact (H (zipped_keys _ _ _ Hin)).
  - destruct (length r <? length fieldnames).
    + apply fill_keys in Hin. destruct Hin as [Hin | Hin].
      * apply H. revert Hin. generalize (length r). intros n.
        revert fieldnames H. induction n as [|n IH]; intros [|x f] H Hin;
          simpl in Hin; auto. right. apply IH; [|exact Hin].
        intros Hx. apply H. now right.
      * exact (H (zipped_keys _ _ _ Hin)).
    + exact (H (zipped_keys _ _ _ Hin)).
Qed.

Lemma for_rows_raises rows m e :
  for_rows rows m = Raise e -> e = AttributeError.
Proof.
  revert m. induction rows as [|r rows IH]; intros m H; simpl in H;
    [discriminate|].
  destruct (loop_body m r) as [m'|e'] eqn:E; simpl in H.
  - exact (IH _ H).
  - injection H as <-. unfold loop_body in E.
    destruct (code_of r) as [c|e1] eqn:Hc; simpl in E.
    + destruct (name_of r) as [n|e2] eqn:Hn; simpl in E.
      * destruct (truthy c && truthy n); discriminate.
      * injection E as <-. exact (strip_of_raises _ _ Hn).
    + injection E as <-. exact (strip_of_raises _ _ Hc).
Qed.

Lemma rows_of_file csv_reader text fieldnames rest :
  csv_reader text = fieldnames :: rest ->
  DictReader csv_reader text
  = map (DictReader_row fieldnames)
        (filter (fun r => negb (is_blank r)) rest).
Proof. intros E. unfold DictReader. now rewrite E. Qed.

Lemma full_rows_readable fieldnames rest :
  Forall (fun r => is_blank r = false -> full_row fieldnames r) rest ->
  Forall readable
    (map (DictReader_row fieldnames)
         (filter (fun r => negb (is_blank r)) rest)).
Proof.
  induction 1 as [|r rest Hr _ IH]; simpl; [constructor|].
  destruct (is_blank r) eqn:B; simpl; [exact IH|].
  constructor; [|exact IH]. apply full_row_readable. now apply Hr.
Qed.

Lemma main_of_run csv_reader w w' r :
  extract_country_mapping csv_reader w = (w', r) ->
  main csv_reader w = (w', exit_status r).
Proof. intros E. unfold main. now rewrite E. Qed.

Lemma paths_differ : csv_file <> output_file.
Proof. vm_compute. discriminate. Qed.

Lemma empty_table_text :
  json_dumps (mapping_json (sorted (items []))) = empty_maps_text.
Proof. vm_compute. reflexivity. Qed.

Lemma skipped_rows rows : forall m,
  Forall (fun r => exists code name,
            code_of r = Ok code /\ name_of r = Ok name
            /\ (code = [] \/ name = [])) rows ->
  for_rows rows m = Ok m.
Proof.
  induction rows as [|r rows IH]; intros m H; simpl; [reflexivity|].
  inversion H as [|? ? (c & n & Hc & Hn & He) Hrest]; subst.
  rewrite (loop_body_skipped m r c n Hc Hn He). simpl. now apply IH.
Qed.

(* ===================================================================== *)
(** ** When a run completes and when it aborts *)
(* ===================================================================== *)

Lemma fill_other ks : forall (d : row) k,
  ~ In k ks ->
  dict_lookup key_eqb
    (fold_left (fun d k => dict_set key_eqb d (Some k) VNone) ks d) (Some k)
  = dict_lookup key_eqb d (Some k).
Proof.
  induction ks as [|k0 ks IH]; intros d k H; simpl; [reflexivity|].
  rewrite IH by (intros Hin; apply H; now right).
  apply (lookup_set_ne key_eqb_eq). intros [= ->]. apply H. now left.
Qed.

Lemma lookup_string_or_absent fieldnames r k :
  ~ lacks_field fieldnames r k ->
  dict_lookup key_eqb (DictReader_row fieldnames r) (Some k) = None
  \/ exists s,
       dict_lookup key_eqb (DictReader_row fieldnames r) (Some k)
       = Some (VStr s).
Proof.
  unfold lacks_field. intros H.
  assert (B : forall d : row, strings_only d ->
              dict_lookup key_eqb d (Some k) = None
              \/ exists s, dict_lookup key_eqb d (Some k) = Some (VStr s)).
  { intros d Hd. destruct (dict_lookup key_eqb d (Some k)) as [v|] eqn:E;
      [|now left]. right. destruct (Hd _ _ E) as [s ->]. now exists s. }
  unfold DictReader_row.
  destruct (length fieldnames <? length r).
  - rewrite (lookup_set_ne key_eqb_eq) by discriminate.
    apply B, zipped_strings_only.
  - destruct (length r <? length fieldnames).
    + rewrite fill_other by exact H. apply B, zipped_strings_only.
    + apply B, zipped_strings_only.
Qed.

(** A row that has, or whose header does not name, each of the two
    columns can be trimmed. *)
Lemma covering_row_readable fieldnames r :
  ~ lacks_field fieldnames r REF_AREA ->
  ~ lacks_field fieldnames r REF_AREA_LABEL ->
  readable (DictReader_row fieldnames r).
Proof.
  intros H1 H2. unfold readable, code_of, name_of, dict_get.
  destruct (lookup_string_or_absent fieldnames r _ H1) as [-> | [s1 ->]];
    destruct (lookup_string_or_absent fieldnames r _ H2) as [-> | [s2 ->]];
    simpl; eexists; eexists; split; reflexivity.
Qed.

(** X2: whether the loop over the rows builds a table or raises is
    decided by the lengths of the rows alone: it returns a table exactly
    when no row that is not blank stops before the REF_AREA column or
    before the REF_AREA_LABEL column of the header.  A row that is short
    of other columns only, or longer than the header, does no harm. *)
Theorem loop_returns_iff_columns_covered (fieldnames : list str)
        (rest : list (list str)) :
  (exists country_map,
      for_rows (DictReader_rows (fieldnames :: rest)) [] = Ok country_map)
  <-> Forall (fun r => is_blank r = false ->
                       ~ lacks_field fieldnames r REF_AREA
                       /\ ~ lacks_field fieldnames r REF_AREA_LABEL) rest.
Proof.
  unfold DictReader_rows. split.
  - intros [t T]. apply Forall_forall. intros r Hin Hb.
    assert (R : readable (DictReader_row fieldnames r)).
    { assert (A : Forall readable
                    (map (DictReader_row fieldnames)
                         (filter (fun r => negb (is_blank r)) rest))).
      { apply Forall_forall. intros x Hx.
        destruct (code_of x) as [c|e] eqn:Hc;
          [destruct (name_of x) as [n|e] eqn:Hn|].
        - now exists c, n.
        - exfalso. apply in_split in Hx. destruct Hx as (p1 & p2 & E).
          rewrite E, for_rows_app in T.
          destruct (for_rows p1 []) as [m|]; simpl in T; [|discriminate].
          unfold loop_body in T. rewrite Hc, Hn in T. discriminate.
        - exfalso. apply in_split in Hx. destruct Hx as (p1 & p2 & E).
          rewrite E, for_rows_app in T.
          destruct (for_rows p1 []) as [m|]; simpl in T; [|discriminate].
          unfold loop_body in T. rewrite Hc in T. discriminate. }
      rewrite Forall_forall in A. apply A. apply in_map.
      apply filter_In. split; [exact Hin|]. now rewrite Hb. }
    split; intros L; apply (short_row_unreadable fieldnames r); auto.
  - intros H. apply for_rows_readable.
    induction H as [|r rest Hr _ IH]; simpl; [constructor|].
    destruct (is_blank r) eqn:B; simpl; [exact IH|].
    constructor; [|exact IH].
    destruct (Hr eq_refl). now apply covering_row_readable.
Qed.

(** X3: when some row of the file that is not blank stops before the
    REF_AREA column or before the REF_AREA_LABEL column, the run ends by
    AttributeError with status 1, whatever the other rows are, and nothing
    is printed or written. *)
Theorem any_short_row_aborts csv_reader (w : world) text fieldnames rest r :
  dict_lookup str_eqb (fs w) csv_file = Some text ->
  csv_reader text = fieldnames :: rest ->
  In r rest -> is_blank r = false ->
  lacks_field fieldnames r REF_AREA
  \/ lacks_field fieldnames r REF_AREA_LABEL ->
  extract_country_mapping csv_reader w = (w, Raise AttributeError)
  /\ main csv_reader w = (w, 1%N).
Proof.
  intros H E Hin Hb Hs.
  assert (R : extract_country_mapping csv_reader w
              = (w, Raise AttributeError)).
  { apply (run_raise csv_reader w text _ H).
    apply for_rows_unreadable. rewrite (rows_of_file _ _ _ _ E).
    intros Hall. rewrite Forall_forall in Hall.
    apply (short_row_unreadable fieldnames r Hs). apply Hall.
    apply in_map. apply filter_In. split; [exact Hin|]. now rewrite Hb. }
  split; [exact R|]. now rewrite (main_of_run _ _ _ _ R).
Qed.

Lemma any_short_row_aborts_witness :
  extract_country_mapping (reader_of short_row_input) start_world
  = (start_world, Raise AttributeError)
  /\ main (reader_of short_row_input) start_world = (start_world, 1%N).
Proof.
  apply (any_short_row_aborts (reader_of short_row_input) start_world []
           [REF_AREA; REF_AREA_LABEL] [[lit "US"]] [lit "US"]).
  - reflexivity.
  - reflexivity.
  - left. reflexivity.
  - reflexivity.
  - right. left. reflexivity.
Defined.

(** X4: the two columns are found by the exact names REF_AREA and
    REF_AREA_LABEL.  When the header does not have one of them and no row
    is shorter than the header, every row is passed over: the run
    completes with an empty table and writes the two empty maps. *)
Theorem unnamed_column_empty_output csv_reader (w : world) text fieldnames rest :
  dict_lookup str_eqb (fs w) csv_file = Some text ->
  csv_reader text = fieldnames :: rest ->
  ~ In REF_AREA fieldnames \/ ~ In REF_AREA_LABEL fieldnames ->
  Forall (fun r => is_blank r = false -> full_row fieldnames r) rest ->
  for_rows (DictReader csv_reader text) [] = Ok []
  /\ extract_country_mapping csv_reader w
     = (World (dict_set str_eqb (fs w) output_file empty_maps_text)
              (stdout w ++ report []),
        Ok tt).
Proof.
  intros H E Hcol F.
  assert (T : for_rows (DictReader csv_reader text) [] = Ok []).
  { apply skipped_rows. rewrite (rows_of_file _ _ _ _ E).
    pose proof (full_rows_readable fieldnames rest F) as Hr.
    rewrite Forall_forall in Hr |- *. intros r Hin.
    destruct (Hr r Hin) as (c & n & Hc & Hn).
    exists c, n. split; [exact Hc|]. split; [exact Hn|].
    apply in_map_iff in Hin. destruct Hin as (r0 & <- & _).
    unfold code_of, name_of, dict_get in Hc, Hn.
    destruct Hcol as [Hcol | Hcol].
    - left. rewrite (absent_column fieldnames r0 _ Hcol) in Hc.
      injection Hc as <-. reflexivity.
    - right. rewrite (absent_column fieldnames r0 _ Hcol) in Hn.
      injection Hn as <-. reflexivity. }
  split; [exact T|].
  rewrite (run_ok csv_reader w text [] H T), empty_table_text. reflexivity.
Qed.

Lemma other_columns_full :
  Forall (fun r => is_blank r = false
                   -> full_row [lit "ref_area"; lit "REF_AREA_LABEL"] r)
         [ [lit "US"; lit "United States"];
           [lit "FR"; lit "France"; lit "extra"] ].
Proof. repeat constructor; simpl; lia. Defined.

Lemma unnamed_column_empty_output_witness :
  for_rows (DictReader (reader_of other_columns_input) []) [] = Ok []
  /\ extract_country_mapping (reader_of other_columns_input) start_world
     = (World (dict_set str_eqb (fs start_world) output_file empty_maps_text)
              (stdout start_world ++ report []),
        Ok tt).
Proof.
  apply (unnamed_column_empty_output (reader_of other_columns_input)
           start_world [] [lit "ref_area"; lit "REF_AREA_LABEL"] _
           eq_refl eq_refl).
  - left. vm_compute. intros [H | [H | []]]; discriminate.
  - exact other_columns_full.
Defined.

(** X5: when no row of the file is retained (an empty file, a header
    alone, or only rows with an empty code or label after trimming), the
    run still completes: the table is empty, the count printed is 0 and
    the output file is overwritten with the two empty maps. *)
Theorem no_retained_row_empty_output csv_reader (w : world) text :
  dict_lookup str_eqb (fs w) csv_file = Some text ->
  Forall readable (DictReader csv_reader text) ->
  (forall code, ~ bears (DictReader csv_reader text) code) ->
  for_rows (DictReader csv_reader text) [] = Ok []
  /\ extract_country_mapping csv_reader w
     = (World (dict_set str_eqb (fs w) output_file empty_maps_text)
              (stdout w ++ report []),
        Ok tt)
  /\ hd [] (report []) = lit "Found 0 unique countries" ++ newline.
Proof.
  intros H R B.
  destruct (for_rows_readable _ [] R) as [t T].
  assert (t = []) as ->.
  { destruct t as [|[c n] t]; [reflexivity|]. exfalso.
    apply (B c). apply (table_keys _ _ T). now left. }
  split; [exact T|]. split; [|reflexivity].
  rewrite (run_ok csv_reader w text [] H T), empty_table_text. reflexivity.
Qed.

Lemma no_retained_row_empty_output_witness :
  for_rows (DictReader (reader_of header_only_input) []) [] = Ok []
  /\ extract_country_mapping (reader_of header_only_input) start_world
     = (World (dict_set str_eqb (fs start_world) output_file empty_maps_text)
              (stdout start_world ++ report []),
        Ok tt)
  /\ hd [] (report []) = lit "Found 0 unique countries" ++ newline.
Proof.
  apply (no_retained_row_empty_output (reader_of header_only_input)
           start_world []).
  - reflexivity.
  - constructor.
  - intros code (r & name & [] & _).
Defined.

(** X6: a run does not change the input file, so the script can be run
    again: the second run completes too, leaves the files as the first
    run left them and prints the same report once more. *)
Theorem rerun_same_file csv_reader (w : world) text country_map :
  dict_lookup str_eqb (fs w) csv_file = Some text ->
  for_rows (DictReader csv_reader text) [] = Ok country_map ->
  dict_lookup str_eqb (fs (fst (extract_country_mapping csv_reader w)))
              csv_file = Some text
  /\ extract_country_mapping csv_reader
       (fst (extract_country_mapping csv_reader w))
     = (World (fs (fst (extract_country_mapping csv_reader w)))
              (stdout w ++ report (sorted (items country_map))
               ++ report (sorted (items country_map))),
        Ok tt).
Proof.
  intros H E. rewrite (run_ok csv_reader w text country_map H E).
  cbn [fst].
  set (w1 := World (dict_set str_eqb (fs w) output_file
                      (json_dumps (mapping_json (sorted (items country_map)))))
                   (stdout w ++ report (sorted (items country_map)))).
  assert (H1 : dict_lookup str_eqb (fs w1) csv_file = Some text).
  { unfold w1. cbn [fs]. rewrite (lookup_set_ne str_eqb_eq); [exact H|].
    intros Heq. apply paths_differ. now symmetry. }
  split; [exact H1|].
  rewrite (run_ok csv_reader w1 text country_map H1 E).
  unfold w1. cbn [fs stdout].
  rewrite (dict_set_twice str_eqb _ _ _ _ str_eqb_eq).
  now rewrite <- app_assoc.
Qed.

Lemma rerun_same_file_witness :
  dict_lookup str_eqb
    (fs (fst (extract_country_mapping (reader_of ragged_input) start_world)))
    csv_file = Some []
  /\ extract_country_mapping (reader_of ragged_input)
       (fst (extract_country_mapping (reader_of ragged_input) start_world))
     = (World (fs (fst (extract_country_mapping (reader_of ragged_input)
                                                start_world)))
              (stdout start_world ++ report (sorted (items ragged_table))
               ++ report (sorted (items ragged_table))),
        Ok tt).
Proof.
  apply (rerun_same_file (reader_of ragged_input) start_world [] ragged_table);
    [reflexivity | exact ragged_run].
Defined.

(* ===================================================================== *)
(** ** What the output depends on *)
(* ===================================================================== *)

Lemma code_lt_irrefl p : ~ code_lt p p.
Proof. unfold code_lt. rewrite str_lt_irrefl. discriminate. Qed.

Lemma ascending_unique l1 : forall l2,
  StronglySorted code_lt l1 -> StronglySorted code_lt l2 ->
  Permutation l1 l2 -> l1 = l2.
Proof.
  induction l1 as [|x l1 IH]; intros l2 S1 S2 P.
  - apply Permutation_nil in P. now subst.
  - destruct l2 as [|y l2];
      [apply Permutation_sym, Permutation_nil in P; discriminate|].
    inversion S1 as [|? ? S1' A1]; inversion S2 as [|? ? S2' A2]; subst.
    rewrite Forall_forall in A1, A2.
    assert (x = y) as ->.
    { assert (Hx : In x (y :: l2))
        by (apply (Permutation_in _ P); now left).
      assert (Hy : In y (x :: l1))
        by (apply (Permutation_in _ (Permutation_sym P)); now left).
      destruct Hx as [-> | Hx]; [reflexivity|].
      destruct Hy as [-> | Hy]; [reflexivity|].
      exfalso. apply (code_lt_irrefl x). unfold code_lt.
      apply (str_lt_trans _ (fst y)); [now apply A1 | now apply A2]. }
    f_equal. apply IH; auto. exact (Permutation_cons_inv P).
Qed.

Lemma sorted_canonical (l1 l2 : list (str * str)) :
  NoDup (map fst l1) -> Permutation l1 l2 -> sorted l1 = sorted l2.
Proof.
  intros H P.
  assert (H2 : NoDup (map fst l2)).
  { apply (Permutation_NoDup (Permutation_map fst P) H). }
  apply ascending_unique; try (now apply sorted_ascending).
  rewrite (sorted_perm l1), (sorted_perm l2). exact P.
Qed.

(** X8: the sorted sequence does not depend on the order in which the
    codes were first met: two tables with the same entries, the codes
    distinct, give the same sequence. *)
Theorem sorted_insertion_order_free (l1 l2 : list (str * str)) :
  NoDup (map fst l1) -> Permutation l1 l2 -> sorted l1 = sorted l2.
Proof. exact (sorted_canonical l1 l2). Qed.

Lemma sorted_insertion_order_free_witness :
  sorted scenario_table = sorted reordered_table.
Proof.
  apply (sorted_insertion_order_free scenario_table reordered_table).
  - repeat constructor; simpl; intuition discriminate.
  - apply perm_swap.
Defined.

Lemma NoDup_pairs (l : list (str * str)) : NoDup (map fst l) -> NoDup l.
Proof. apply NoDup_map_inv. Qed.

(** X7: what a run prints and writes is fixed by the label of the last
    retained row of each code: two files that agree on these, whatever
    their other rows and the order of the codes, give the same sorted
    sequence, the same report and the same JSON text. *)
Theorem output_fixed_by_last_labels (rows1 rows2 : list row) :
  Forall readable rows1 -> Forall readable rows2 ->
  (forall code name,
     last_bearing rows1 code name <-> last_bearing rows2 code name) ->
  exists t1 t2,
    for_rows rows1 [] = Ok t1 /\ for_rows rows2 [] = Ok t2
    /\ sorted (items t1) = sorted (items t2)
    /\ report (sorted (items t1)) = report (sorted (items t2))
    /\ json_dumps (mapping_json (sorted (items t1)))
       = json_dumps (mapping_json (sorted (items t2))).
Proof.
  intros R1 R2 L.
  destruct (for_rows_readable rows1 [] R1) as [t1 T1].
  destruct (for_rows_readable rows2 [] R2) as [t2 T2].
  assert (N1 : NoDup (map fst (items t1)))
    by (eapply for_rows_NoDup; [exact T1 | constructor]).
  assert (N2 : NoDup (map fst (items t2)))
    by (eapply for_rows_NoDup; [exact T2 | constructor]).
  assert (S : sorted (items t1) = sorted (items t2)).
  { apply sorted_canonical; [exact N1|].
    apply NoDup_Permutation; try (now apply NoDup_pairs).
    intros [c n]. rewrite (table_entries _ _ T1), (table_entries _ _ T2).
    apply L. }
  exists t1, t2. rewrite S. auto.
Qed.

Lemma reordered_readable : Forall readable (DictReader_rows reordered_input).
Proof.
  repeat constructor; eexists; eexists; split; vm_compute; reflexivity.
Defined.

Lemma scenario_run :
  for_rows (DictReader_rows scenario_input) [] = Ok scenario_table.
Proof. vm_compute. reflexivity. Defined.

Lemma reordered_run :
  for_rows (DictReader_rows reordered_input) [] = Ok reordered_table.
Proof. vm_compute. reflexivity. Defined.

Lemma same_last_labels code name :
  last_bearing (DictReader_rows scenario_input) code name
  <-> last_bearing (DictReader_rows reordered_input) code name.
Proof.
  rewrite <- (table_entries _ _ scenario_run).
  rewrite <- (table_entries _ _ reordered_run).
  unfold items, scenario_table, reordered_table. simpl. tauto.
Defined.

Lemma output_fixed_by_last_labels_witness :
  exists t1 t2,
    for_rows (DictReader_rows scenario_input) [] = Ok t1
    /\ for_rows (DictReader_rows reordered_input) [] = Ok t2
    /\ sorted (items t1) = sorted (items t2)
    /\ report (sorted (items t1)) = report (sorted (items t2))
    /\ json_dumps (mapping_json (sorted (items t1)))
       = json_dumps (mapping_json (sorted (items t2))).
Proof.
  exact (output_fixed_by_last_labels
           (DictReader_rows scenario_input) (DictReader_rows reordered_input)
           scenario_readable reordered_readable same_last_labels).
Defined.

(* ===================================================================== *)
(** ** Counts *)
(* ===================================================================== *)

Lemma for_rows_length rows : forall m t,
  for_rows rows m = Ok t -> length t <= length m + length rows.
Proof.
  induction rows as [|r rows IH]; intros m t H; simpl in H.
  - injection H as <-. lia.
  - destruct (loop_body m r) as [m1|e] eqn:Hb; simpl in H; [|discriminate].
    apply IH in H. simpl. unfold loop_body in Hb.
    destruct (code_of r) as [c|]; simpl in Hb; [|discriminate].
    destruct (name_of r) as [n|]; simpl in Hb; [|discriminate].
    destruct (truthy c && truthy n); injection Hb as <-; [|lia].
    pose proof (dict_set_length str_eqb m c n). lia.
Qed.

Lemma dict_of_length {K V} (eqb : K -> K -> bool) (l : list (K * V)) :
  length (dict_of eqb l) <= length l.
Proof.
  induction l as [|[k v] l IH] using rev_ind; [simpl; lia|].
  rewrite dict_of_snoc, length_app. simpl.
  pose proof (dict_set_length eqb (dict_of eqb l) k v). lia.
Qed.

(** X9: in a run that completes, the number given by the first call of
    print and by the last one is the number of entries of the table, that
    is of distinct retained codes; it is at most the number of rows read.
    Between these two calls the run calls print ten times and twice more
    per entry.  codeToName has that many members and nameToCode at most
    that many. *)
Theorem counts_reported csv_reader (w : world) text country_map :
  dict_lookup str_eqb (fs w) csv_file = Some text ->
  for_rows (DictReader csv_reader text) [] = Ok country_map ->
  (exists middle,
      stdout (fst (extract_country_mapping csv_reader w))
      = stdout w
        ++ (lit "Found " ++ str_of_nat (length (keys country_map))
            ++ lit " unique countries" ++ newline)
        :: middle
        ++ [ [check_mark] ++ lit " Total countries: "
             ++ str_of_nat (length (keys country_map)) ]
      /\ length middle = 10 + 2 * length (keys country_map))
  /\ length (keys country_map) <= length (DictReader csv_reader text)
  /\ length (codeToName (sorted (items country_map)))
     = length (keys country_map)
  /\ length (nameToCode (sorted (items country_map)))
     <= length (keys country_map).
Proof.
  intros H E.
  assert (L : length (sorted (items country_map)) = length (keys country_map)).
  { rewrite sorted_length. unfold keys, items. now rewrite length_map. }
  assert (N : NoDup (map fst (sorted (items country_map)))).
  { apply sorted_NoDup_keys. eapply for_rows_NoDup; [exact E | constructor]. }
  split; [|split; [|split]].
  - rewrite (run_ok csv_reader w text country_map H E). cbn [fst stdout].
    unfold report. rewrite L.
    set (S := sorted (items country_map)) in *.
    exists ([ times (lit "=") 80;
              lit "COUNTRY CODE MAPPING (for countryMapping.js)";
              times (lit "=") 80;
              newline
              ++ lit "// Extracted from IMF data - REF_AREA_LABEL to REF_AREA";
              lit "const IMF_COUNTRY_MAP = {" ]
            ++ map name_to_code_line S
            ++ [ lit "}" ++ newline;
                 newline
                 ++ lit "// Reverse mapping (code to name) for display";
                 lit "const CODE_TO_NAME = {" ]
            ++ map code_to_name_line S
            ++ [ lit "}" ++ newline;
                 newline ++ [check_mark] ++ lit " Mapping saved to "
                 ++ output_file ]).
    split.
    + f_equal. cbn [app]. f_equal. f_equal. f_equal. f_equal. f_equal.
      f_equal. repeat (rewrite <- app_assoc; cbn [app]). reflexivity.
    + rewrite !length_app, !length_map, L. simpl. lia.
  - pose proof (for_rows_length _ _ _ E) as B. unfold keys.
    rewrite length_map. simpl in B. exact B.
  - unfold codeToName. now rewrite (dict_of_NoDup str_eqb_eq _ N).
  - unfold nameToCode. rewrite <- L.
    eapply Nat.le_trans; [apply dict_of_length|]. now rewrite length_map.
Qed.

Lemma counts_reported_witness :
  (exists middle,
      stdout (fst (extract_country_mapping (reader_of ragged_input)
                                           start_world))
      = stdout start_world
        ++ (lit "Found " ++ str_of_nat (length (keys ragged_table))
            ++ lit " unique countries" ++ newline)
        :: middle
        ++ [ [check_mark] ++ lit " Total countries: "
             ++ str_of_nat (length (keys ragged_table)) ]
      /\ length middle = 10 + 2 * length (keys ragged_table))
  /\ length (keys ragged_table)
     <= length (DictReader (reader_of ragged_input) [])
  /\ length (codeToName (sorted (items ragged_table)))
     = length (keys ragged_table)
  /\ length (nameToCode (sorted (items ragged_table)))
     <= length (keys ragged_table).
Proof.
  apply (counts_reported (reader_of ragged_input) start_world [] ragged_table);
    [reflexivity | exact ragged_run].
Defined.

(* ===================================================================== *)
(** ** Labels that are all different *)
(* ===================================================================== *)

(** X10: when no two codes of the table have the same label, nameToCode
    is the sorted sequence with each pair turned round, so it lists the
    labels in ascending order of their codes, and the two maps are
    inverses of each other in both directions. *)
Theorem distinct_labels_exact_inverse (rows : list row) country_map :
  for_rows rows [] = Ok country_map ->
  NoDup (map snd (items country_map)) ->
  nameToCode (sorted (items country_map))
  = map (fun kv => (snd kv, fst kv)) (sorted (items country_map))
  /\ (forall code name,
        dict_lookup str_eqb (codeToName (sorted (items country_map))) code
        = Some name
        <-> dict_lookup str_eqb (nameToCode (sorted (items country_map))) name
            = Some code).
Proof.
  intros E D.
  set (S := sorted (items country_map)).
  assert (N : NoDup (map fst S)).
  { apply sorted_NoDup_keys. eapply for_rows_NoDup; [exact E | constructor]. }
  assert (D' : NoDup (map fst (map (fun kv : str * str => (snd kv, fst kv)) S))).
  { rewrite map_map. simpl.
    apply (Permutation_NoDup
             (Permutation_map snd (Permutation_sym (sorted_perm _))) D). }
  assert (Q : nameToCode S = map (fun kv => (snd kv, fst kv)) S).
  { unfold nameToCode. now apply (dict_of_NoDup str_eqb_eq). }
  split; [exact Q|]. intros code name.
  rewrite (codeToName_lookup _ _ _ N), Q, (lookup_In str_eqb_eq _ _ _ D').
  rewrite in_map_iff. split.
  - intros Hin. now exists (code, name).
  - intros ([c n] & [= <- <-] & Hin). exact Hin.
Qed.

Lemma distinct_labels_exact_inverse_witness :
  nameToCode (sorted (items scenario_table))
  = map (fun kv => (snd kv, fst kv)) (sorted (items scenario_table))
  /\ (forall code name,
        dict_lookup str_eqb (codeToName (sorted (items scenario_table))) code
        = Some name
        <-> dict_lookup str_eqb (nameToCode (sorted (items scenario_table)))
                        name
            = Some code).
Proof.
  apply (distinct_labels_exact_inverse (DictReader_rows scenario_input)
                                       scenario_table scenario_run).
  repeat constructor; simpl; intuition discriminate.
Defined.

(* ===================================================================== *)
(** ** White space around the fields *)
(* ===================================================================== *)

Lemma lstrip_space_app ws s : all_space ws -> lstrip (ws ++ s) = lstrip s.
Proof.
  induction 1 as [|c ws Hc _ IH]; simpl; [reflexivity|]. now rewrite Hc.
Qed.

Lemma rstrip_app_space s ws : all_space ws -> rstrip (s ++ ws) = rstrip s.
Proof.
  intros H. unfold rstrip. rewrite rev_app_distr, lstrip_space_app;
    [reflexivity | now apply Forall_rev].
Qed.

Lemma lstrip_app s t : lstrip s <> [] -> lstrip (s ++ t) = lstrip s ++ t.
Proof.
  induction s as [|c s IH]; simpl; [congruence|].
  destruct (isspace c); [exact IH | reflexivity].
Qed.

Lemma lstrip_nil s : lstrip s = [] <-> all_space s.
Proof.
  unfold all_space. induction s as [|c s IH]; simpl.
  - split; [constructor | reflexivity].
  - destruct (isspace c) eqn:Hc.
    + rewrite IH. split; [now constructor | now inversion 1].
    + split; [discriminate | inversion 1; congruence].
Qed.

Lemma strip_all_space s : all_space s -> strip s = [].
Proof.
  intros H. unfold strip. apply lstrip_nil in H. now rewrite H.
Qed.

Lemma strip_padded ws1 s ws2 :
  all_space ws1 -> all_space ws2 -> strip (ws1 ++ s ++ ws2) = strip s.
Proof.
  intros H1 H2. unfold strip. rewrite lstrip_space_app by exact H1.
  destruct (lstrip s) as [|c s'] eqn:E.
  - apply lstrip_nil in E.
    assert (A : all_space (s ++ ws2)) by (apply Forall_app; now split).
    apply lstrip_nil in A. now rewrite A.
  - rewrite lstrip_app by congruence. rewrite E.
    now apply rstrip_app_space.
Qed.

Lemma code_of_string r s :
  dict_lookup key_eqb r (Some REF_AREA) = Some (VStr s) ->
  code_of r = Ok (strip s).
Proof. intros H. unfold code_of, dict_get. now rewrite H. Qed.

Lemma name_of_string r s :
  dict_lookup key_eqb r (Some REF_AREA_LABEL) = Some (VStr s) ->
  name_of r = Ok (strip s).
Proof. intros H. unfold name_of, dict_get. now rewrite H. Qed.

(** X11: a row whose code field or label field holds white space only is
    passed over like a row with an empty field: the table stays as it
    is. *)
Theorem blank_field_skipped (m : dict str str) (r : row) code name :
  dict_lookup key_eqb r (Some REF_AREA) = Some (VStr code) ->
  dict_lookup key_eqb r (Some REF_AREA_LABEL) = Some (VStr name) ->
  all_space code \/ all_space name ->
  loop_body m r = Ok m.
Proof.
  intros Hc Hn H.
  apply (loop_body_skipped m r (strip code) (strip name)).
  - now apply code_of_string.
  - now apply name_of_string.
  - destruct H as [H | H]; [left | right]; now apply strip_all_space.
Qed.

Lemma blank_field_skipped_witness :
  loop_body scenario_table
    [ (Some REF_AREA, VStr (lit "XX"));
      (Some REF_AREA_LABEL, VStr (lit "   ")) ]
  = Ok scenario_table.
Proof.
  apply (blank_field_skipped scenario_table _ (lit "XX") (lit "   "));
    [reflexivity | reflexivity |].
  right. repeat constructor.
Defined.

(** X12: white space before and after the code and the label does not
    count: two rows whose two fields differ by such white space only do
    the same to the table, so they are rows of one code with one label. *)
Theorem outer_space_ignored (m : dict str str) (r r' : row)
        code name ws1 ws2 ws3 ws4 :
  dict_lookup key_eqb r (Some REF_AREA) = Some (VStr (ws1 ++ code ++ ws2)) ->
  dict_lookup key_eqb r (Some REF_AREA_LABEL)
  = Some (VStr (ws3 ++ name ++ ws4)) ->
  dict_lookup key_eqb r' (Some REF_AREA) = Some (VStr code) ->
  dict_lookup key_eqb r' (Some REF_AREA_LABEL) = Some (VStr name) ->
  all_space ws1 -> all_space ws2 -> all_space ws3 -> all_space ws4 ->
  loop_body m r = loop_body m r'.
Proof.
  intros Hc Hn Hc' Hn' H1 H2 H3 H4. unfold loop_body.
  rewrite (code_of_string _ _ Hc), (name_of_string _ _ Hn).
  rewrite (code_of_string _ _ Hc'), (name_of_string _ _ Hn').
  now rewrite !strip_padded.
Qed.

Lemma outer_space_ignored_witness :
  loop_body scenario_table
    [ (Some REF_AREA, VStr (lit " " ++ lit "US" ++ lit "  "));
      (Some REF_AREA_LABEL, VStr ([9%N] ++ lit "United States" ++ [])) ]
  = loop_body scenario_table
      [ (Some REF_AREA, VStr (lit "US"));
        (Some REF_AREA_LABEL, VStr (lit "United States")) ].
Proof.
  apply (outer_space_ignored scenario_table _ _ (lit "US")
           (lit "United States") (lit " ") (lit "  ") [9%N] []);
    try reflexivity; repeat constructor.
Defined.

(* ===================================================================== *)
(** ** Escaped labels, surplus fields *)
(* ===================================================================== *)

Lemma escaped_cons c s :
  escaped (c :: s)
  = (if (c =? quote)%N then lit "\'" else [c]) ++ escaped s.
Proof. reflexivity. Qed.

Lemma escaped_head s rest : escaped s <> quote :: rest.
Proof.
  destruct s as [|c s]; [discriminate|]. rewrite escaped_cons.
  destruct (N.eqb_spec c quote) as [-> | Hc].
  - discriminate.
  - simpl. congruence.
Qed.

Lemma escaped_one_to_one a : forall b, escaped a = escaped b -> a = b.
Proof.
  induction a as [|c a IH]; intros [|d b] H.
  - reflexivity.
  - rewrite escaped_cons in H. destruct (d =? quote)%N; discriminate.
  - rewrite escaped_cons in H. destruct (c =? quote)%N; discriminate.
  - rewrite !escaped_cons in H.
    destruct (N.eqb_spec c quote) as [-> | Hc];
      destruct (N.eqb_spec d quote) as [-> | Hd].
    + injection H as H. f_equal. now apply IH.
    + injection H as _ H. symmetry in H. now apply escaped_head in H.
    + injection H as _ H. now apply escaped_head in H.
    + injection H as -> H. f_equal. now apply IH.
Qed.

(** X13: escaping loses nothing: two labels with the same escaped text
    are the same label, so the two lines printed for an entry tell its
    label. *)
Theorem escaped_injective (a b : str) : escaped a = escaped b -> a = b.
Proof. exact (escaped_one_to_one a b). Qed.

Lemma escaped_injective_witness : lit "Cote d'Ivoire" = lit "Cote d'Ivoire".
Proof.
  exact (escaped_injective (lit "Cote d'Ivoire") (lit "Cote d'Ivoire")
                           eq_refl).
Defined.

Lemma combine_firstn {A B} (l1 : list A) : forall (l2 : list B),
  combine l1 l2 = combine l1 (firstn (length l1) l2).
Proof.
  induction l1 as [|x l1 IH]; intros [|y l2]; simpl; try reflexivity.
  now rewrite <- IH.
Qed.

Lemma surplus_lookup fieldnames r k :
  length fieldnames <= length r ->
  dict_lookup key_eqb (DictReader_row fieldnames r) (Some k)
  = dict_lookup key_eqb
      (DictReader_row fieldnames (firstn (length fieldnames) r)) (Some k).
Proof.
  intros H. unfold DictReader_row at 2.
  rewrite (firstn_length_le r H), Nat.ltb_irrefl.
  assert (B : combine (map Some fieldnames)
                      (map VStr (firstn (length fieldnames) r))
              = combine (map Some fieldnames) (map VStr r)).
  { rewrite <- firstn_map.
    rewrite (combine_firstn (map Some fieldnames) (map VStr r)).
    now rewrite length_map. }
  rewrite B. unfold DictReader_row.
  destruct (length fieldnames <? length r) eqn:E1.
  - now rewrite (lookup_set_ne key_eqb_eq) by discriminate.
  - replace (length r <? length fieldnames) with false
      by (symmetry; apply Nat.ltb_ge; lia).
    reflexivity.
Qed.

(** X14: the fields of a row beyond the last column of the header are not
    looked at: the row does to the table what the row cut to the length
    of the header does. *)
Theorem surplus_fields_ignored (m : dict str str) fieldnames r :
  length fieldnames <= length r ->
  loop_body m (DictReader_row fieldnames r)
  = loop_body m (DictReader_row fieldnames (firstn (length fieldnames) r)).
Proof.
  intros H. unfold loop_body, code_of, name_of, dict_get.
  now rewrite !(surplus_lookup fieldnames r _ H).
Qed.

Lemma surplus_fields_ignored_witness :
  loop_body [] (DictReader_row [REF_AREA_LABEL; REF_AREA]
                               [lit "Aruba"; lit "AW"; lit "extra"])
  = loop_body [] (DictReader_row [REF_AREA_LABEL; REF_AREA]
                    (firstn (length [REF_AREA_LABEL; REF_AREA])
                            [lit "Aruba"; lit "AW"; lit "extra"])).
Proof.
  apply (surplus_fields_ignored [] [REF_AREA_LABEL; REF_AREA]
           [lit "Aruba"; lit "AW"; lit "extra"]).
  simpl. lia.
Defined.
